(** * populate_database.py: chunk identity and store synchronisation

    A shallow embedding of [calculate_sha1], [calculate_chunk_ids] and
    [add_to_chroma] from [populate_database.py], with the library objects
    they drive (the [hashlib] digest object, the file system seen through
    [open], the Chroma collection) modelled by what their documented
    interface does. *)

From Stdlib Require Import ZArith Ascii Recdef.
From Stdlib Require Strings.Byte.
From stdpp Require Import base tactics option list strings pretty gmap.

(** ** [hashlib.sha1]

    The digest object is modelled by the bytes fed to it so far:
    [m.update(a); m.update(b)] is [m.update(a + b)].  [hexdigest] is SHA-1
    (FIPS 180-4) of those bytes, on 32-bit words kept in [Z] with the
    wrap-around written out. *)
Module hashlib.

Import Strings.Byte.
Local Open Scope Z_scope.

Definition wrap32 (x : Z) : Z := Z.land x 0xFFFFFFFF.

Definition rotl (n x : Z) : Z :=
  wrap32 (Z.lor (Z.shiftl x n) (Z.shiftr x (32 - n))).

Definition byte_val (b : byte) : Z := Z.of_N (Byte.to_N b).

(** Big-endian bytes of the low [n] bytes of [x], most significant first. *)
Fixpoint be_bytes (n : nat) (x : Z) : list Z :=
  match n with
  | O => []
  | S n' => Z.land (Z.shiftr x (8 * Z.of_nat n')) 0xFF :: be_bytes n' x
  end.

(** Message padding: a single 1 bit, zeros up to 56 modulo 64, then the
    bit length of the message as a 64-bit big-endian integer. *)
Definition pad (msg : list Z) : list Z :=
  let len := Z.of_nat (length msg) in
  let zeros := Z.to_nat ((55 - len) mod 64) in
  msg ++ 0x80 :: replicate zeros 0 ++ be_bytes 8 (8 * len).

Fixpoint words (n : nat) (bs : list Z) : list Z :=
  match n with
  | O => []
  | S n' =>
      match bs with
      | b0 :: b1 :: b2 :: b3 :: rest =>
          (Z.shiftl b0 24 + Z.shiftl b1 16 + Z.shiftl b2 8 + b3) :: words n' rest
      | _ => []
      end
  end.

(** Message schedule, newest word first: [rev_w] holds W[t-1], W[t-2], ... *)
Fixpoint schedule (n : nat) (rev_w : list Z) : list Z :=
  match n with
  | O => rev_w
  | S n' =>
      let w := rotl 1 (Z.lxor (Z.lxor (nth 2 rev_w 0) (nth 7 rev_w 0))
                              (Z.lxor (nth 13 rev_w 0) (nth 15 rev_w 0))) in
      schedule n' (w :: rev_w)
  end.

Record state := State { h0 : Z; h1 : Z; h2 : Z; h3 : Z; h4 : Z }.

Definition init : state :=
  State 0x67452301 0xEFCDAB89 0x98BADCFE 0x10325476 0xC3D2E1F0.

Definition f (t : nat) (b c d : Z) : Z :=
  if (t <? 20)%nat then Z.lor (Z.land b c) (Z.land (Z.lxor b 0xFFFFFFFF) d)
  else if (t <? 40)%nat then Z.lxor (Z.lxor b c) d
  else if (t <? 60)%nat then
    Z.lor (Z.lor (Z.land b c) (Z.land b d)) (Z.land c d)
  else Z.lxor (Z.lxor b c) d.

Definition K (t : nat) : Z :=
  if (t <? 20)%nat then 0x5A827999
  else if (t <? 40)%nat then 0x6ED9EBA1
  else if (t <? 60)%nat then 0x8F1BBCDC
  else 0xCA62C1D6.

Fixpoint rounds (t : nat) (ws : list Z) (s : state) : state :=
  match ws with
  | [] => s
  | w :: ws' =>
      let tmp := wrap32 (rotl 5 (h0 s) + f t (h1 s) (h2 s) (h3 s) + h4 s + K t + w) in
      rounds (S t) ws' (State tmp (h0 s) (rotl 30 (h1 s)) (h2 s) (h3 s))
  end.

Definition compress (s : state) (block : list Z) : state :=
  let ws := rev (schedule 64 (rev (words 16 block))) in
  let r := rounds 0 ws s in
  State (wrap32 (h0 s + h0 r)) (wrap32 (h1 s + h1 r)) (wrap32 (h2 s + h2 r))
        (wrap32 (h3 s + h3 r)) (wrap32 (h4 s + h4 r)).

Fixpoint blocks (n : nat) (bs : list Z) (s : state) : state :=
  match n with
  | O => s
  | S n' => blocks n' (drop 64 bs) (compress s (take 64 bs))
  end.

Definition hex_char (x : Z) : ascii :=
  match x with
  | 0 => "0" | 1 => "1" | 2 => "2" | 3 => "3" | 4 => "4" | 5 => "5"
  | 6 => "6" | 7 => "7" | 8 => "8" | 9 => "9" | 10 => "a" | 11 => "b"
  | 12 => "c" | 13 => "d" | 14 => "e" | _ => "f"
  end%char%Z.

Fixpoint hex (n : nat) (x : Z) : string :=
  match n with
  | O => ""
  | S n' => String (hex_char (Z.land (Z.shiftr x (4 * Z.of_nat n')) 0xF)) (hex n' x)
  end.

(** The digest object: the bytes it has been fed. *)
Definition sha1_object := list byte.

Definition sha1 : sha1_object := [].

Definition update (m : sha1_object) (data : list byte) : sha1_object :=
  m ++ data.

Definition hexdigest (m : sha1_object) : string :=
  let bs := pad (byte_val <$> m) in
  let s := blocks (length bs / 64)%nat bs init in
  hex 8 (h0 s) +:+ hex 8 (h1 s) +:+ hex 8 (h2 s) +:+ hex 8 (h3 s) +:+ hex 8 (h4 s).

End hashlib.

(** ** Python values as they are formatted

    [f"{x}"] is [str(x)]: a string is itself, an integer is its decimal
    numeral (with a leading [-] when negative) and [None] is the four
    letters [None]. *)
Class Str (A : Type) := str : A → string.
Global Hint Mode Str ! : typeclass_instances.

Global Instance str_string : Str string := λ s, s.
Global Instance str_int : Str Z := pretty.
Global Instance str_nat : Str nat := pretty.
Global Instance str_option `{Str A} : Str (option A) := from_option str "None".

(** ** Exceptions *)
Inductive exception :=
  | TypeError
  | ValueError
  | KeyError (key : string)
  | FileNotFoundError (filename : string)
  | IsADirectoryError (filename : string)
  | NotADirectoryError (filename : string)
  | PermissionError (filename : string)
  | OSError (filename : string)
  | DuplicateIDError.

Inductive result (A : Type) :=
  | Return (a : A)
  | Raise (e : exception).
Global Arguments Return {A} a.
Global Arguments Raise {A} e.

Global Instance result_ret : MRet result := @Return.
Global Instance result_bind : MBind result := λ A B k m,
  match m with
  | Return a => k a
  | Raise e => Raise e
  end.
Global Instance result_fmap : FMap result := λ A B g m,
  match m with
  | Return a => Return (g a)
  | Raise e => Raise e
  end.

(** ** The file system, as [open(filepath, 'rb')] sees it

    The keys are the paths of what is there, as they are spelled: a regular
    file that can be read, a directory, or a file the process may not read.
    At a path that is no key [open] finds nothing, and says why: the path
    has a NUL in it ([ValueError]), it or one of its names is too long
    ([OSError], "File name too long"), it goes through something that is
    not a directory ([NotADirectoryError]), or there is no such file
    ([FileNotFoundError]).  A path is the names it spells, from the root
    of the map: there is no current directory, no link and no [.] or [..]
    to resolve, and two spellings are two paths. *)
Inductive entry :=
  | Regular (content : list Byte.byte)
  | Directory
  | Protected (content : list Byte.byte).

Abbreviation filesystem := (gmap string entry).

(** An open binary file: the bytes not read yet. *)
Definition file_object := list Byte.byte.

(** The longest name of a directory entry and the longest path (with its
    final NUL), in bytes. *)
Definition NAME_MAX : nat := 255.
Definition PATH_MAX : N := 4096.

Fixpoint has_nul (path : string) : bool :=
  match path with
  | EmptyString => false
  | String c path' => bool_decide (c = "000"%char) || has_nul path'
  end.

(** [dir] is no key but there are keys below it: it is a directory. *)
Definition has_entries (fs : filesystem) (dir : string) : bool :=
  bool_decide (Exists (λ key, String.prefix (dir +:+ "/") key = true)
                 (elements (dom fs))).

(** The walk along a path that is no key, name by name: [pre] is what lies
    before the name being read, [name] what was read of it, [rest] what is
    left of the path.  The walk stops at the first name that is too long,
    that is not there, or that is not a directory although the path goes
    on. *)
Fixpoint walk (fs : filesystem) (path pre name rest : string) : exception :=
  match rest with
  | EmptyString =>
      if decide (name = "")
      then if decide (pre = "") then FileNotFoundError path
           else IsADirectoryError path
      else if NAME_MAX <? String.length name then OSError path
      else FileNotFoundError path
  | String c rest' =>
      if decide (c = "/"%char)
      then
        if decide (name = "") then walk fs path (pre +:+ "/") "" rest'
        else if NAME_MAX <? String.length name then OSError path
        else
          match fs !! (pre +:+ name) with
          | Some Directory => walk fs path (pre +:+ name +:+ "/") "" rest'
          | Some (Regular _) | Some (Protected _) => NotADirectoryError path
          | None =>
              if has_entries fs (pre +:+ name)
              then walk fs path (pre +:+ name +:+ "/") "" rest'
              else FileNotFoundError path
          end
      else walk fs path pre (name +:+ String c "") rest'
  end.

(** What [open] raises at a path that is no key. *)
Definition no_such_file (fs : filesystem) (path : string) : exception :=
  if has_nul path then ValueError
  else if (PATH_MAX <=? N.of_nat (String.length path))%N then OSError path
  else walk fs path "" "" path.

Definition open (fs : filesystem) (filepath : option string) : result file_object :=
  match filepath with
  | None => Raise TypeError
  | Some path =>
      match fs !! path with
      | None => Raise (no_such_file fs path)
      | Some (Regular content) => Return content
      | Some Directory => Raise (IsADirectoryError path)
      | Some (Protected _) => Raise (PermissionError path)
      end
  end.

(** [f.read(n)]: at most [n] bytes, and the file advanced past them. *)
Definition read (n : Z) (f : file_object) : list Byte.byte * file_object :=
  (take (Z.to_nat n) f, drop (Z.to_nat n) f).

(** The [while True] loop of [calculate_sha1]: it ends because every read
    that returns data shortens what is left of the file. *)
Function read_loop (f : file_object) (sha1 : hashlib.sha1_object)
    {measure length f} : hashlib.sha1_object :=
  let (data, f') := read 65536 f in
  match data with
  | [] => sha1
  | _ :: _ => read_loop f' (hashlib.update sha1 data)
  end.
Proof.
  intros f sha1 data f' b l _. unfold read.
  assert (0 < Z.to_nat 65536) as Hn by lia.
  revert Hn. generalize (Z.to_nat 65536). intros n Hn [= Hdata <-].
  rewrite length_drop. destruct f as [|b' f]; [by rewrite take_nil in Hdata|].
  simpl. lia.
Defined.

(** [print("File not found")] writes to the console only; console output is
    not part of the model. *)
Definition calculate_sha1 (fs : filesystem) (filepath : option string)
    : result (option string) :=
  let sha1 := hashlib.sha1 in
  match open fs filepath with
  | Return f => Return (Some (hashlib.hexdigest (read_loop f sha1)))
  | Raise (FileNotFoundError _) => Return None
  | Raise e => Raise e
  end.

(** ** Documents

    A langchain [Document] is its text and a [metadata] dict.  The code
    reads the keys [source] and [page] with [.get] (a missing key reads as
    [None]) and writes and reads the key [id]; the dict is kept as a record
    of those three keys, [None] standing for a key that is not there.
    [source] is a path and [page] a page number, as the loaders set them. *)
Record Metadata := { source : option string; page : option Z; id : option string }.
Record Document := { page_content : string; metadata : Metadata }.

Global Instance Metadata_eq_dec : EqDecision Metadata.
Proof. solve_decision. Defined.
Global Instance Document_eq_dec : EqDecision Document.
Proof. solve_decision. Defined.

(** [chunk.metadata["id"] = chunk_id] *)
Definition set_id (chunk : Document) (chunk_id : string) : Document :=
  {| page_content := page_content chunk;
     metadata := {| source := source (metadata chunk);
                    page := page (metadata chunk);
                    id := Some chunk_id |} |}.

(** [chunk.metadata["id"]] *)
Definition get_id (chunk : Document) : result string :=
  match id (metadata chunk) with
  | Some i => Return i
  | None => Raise (KeyError "id")
  end.

(** ** [calculate_chunk_ids]

    The chunks are mutated in place, so a call leaves two things behind: the
    chunks as they are afterwards, and how the call ended ([None]: it
    returned the list; [Some e]: [e] was raised).  [for_chunk] is the body
    of the [for] loop from the chunk [chunks] starts with, with the two
    local variables the loop carries.  The chunks of a batch are distinct
    objects, as the splitter makes them. *)
Fixpoint for_chunk (fs : filesystem) (last_page_id : option string)
    (current_chunk_index : nat) (chunks : list Document)
    : list Document * option exception :=
  match chunks with
  | [] => ([], None)
  | chunk :: rest =>
      let source := source (metadata chunk) in
      let page := page (metadata chunk) in
      match calculate_sha1 fs source with
      | Raise e => (chunk :: rest, Some e)
      | Return sha1_hash =>
          let current_page_id := str source +:+ ":" +:+ str page +:+ ":" +:+ str sha1_hash in
          let current_chunk_index :=
            if decide (Some current_page_id = last_page_id)
            then current_chunk_index + 1
            else 0 in
          let chunk_id := current_page_id +:+ ":" +:+ str current_chunk_index in
          let last_page_id := Some current_page_id in
          let '(rest', raised) := for_chunk fs last_page_id current_chunk_index rest in
          (set_id chunk chunk_id :: rest', raised)
      end
  end.

Definition calculate_chunk_ids (fs : filesystem) (chunks : list Document)
    : list Document * option exception :=
  let last_page_id := None in
  let current_chunk_index := 0 in
  for_chunk fs last_page_id current_chunk_index chunks.

(** ** The Chroma store

    [Chroma(persist_directory=CHROMA_PATH, ...)] opens the collection kept
    under the directory: documents keyed by identifier.  [db.delete] drops the
    given identifiers, [db.add_documents] puts each document under its
    identifier, and [db.persist] writes the collection back to the directory.
    The store rejects an [add_documents] whose identifiers are not all
    different, with [DuplicateIDError], and then adds nothing.  [calls]
    records the mutating calls made on the object, oldest first, rejected
    ones too.  Other failures of the store and the embedding of the texts
    are not modelled. *)
Inductive call :=
  | Delete (ids : list string)
  | AddDocuments (documents : list Document) (ids : list string)
  | Persist.

Record Chroma := {
  collection : gmap string Document;
  persist_directory : gmap string Document;
  calls : list call
}.

(** [Chroma(persist_directory=CHROMA_PATH, embedding_function=...)] *)
Definition Chroma_init (persist_directory : gmap string Document) : Chroma :=
  {| collection := persist_directory;
     persist_directory := persist_directory;
     calls := [] |}.

(** [db.get(include=[])["ids"]] *)
Definition Chroma_get (db : Chroma) : list string := elements (dom (collection db)).

Definition Chroma_delete (ids : list string) (db : Chroma) : Chroma :=
  {| collection := foldr base.delete (collection db) ids;
     persist_directory := persist_directory db;
     calls := calls db ++ [Delete ids] |}.

(** The store after an [add_documents] it accepts, and after one it
    rejects. *)
Definition Chroma_accepted (documents : list Document) (ids : list string)
    (db : Chroma) : Chroma :=
  {| collection :=
       foldl (λ m '(i, d), <[i := d]> m) (collection db) (zip ids documents);
     persist_directory := persist_directory db;
     calls := calls db ++ [AddDocuments documents ids] |}.

Definition Chroma_rejected (documents : list Document) (ids : list string)
    (db : Chroma) : Chroma :=
  {| collection := collection db;
     persist_directory := persist_directory db;
     calls := calls db ++ [AddDocuments documents ids] |}.

(** The store after the call, and the exception if the call is rejected. *)
Definition Chroma_add_documents (documents : list Document) (ids : list string)
    (db : Chroma) : Chroma * option exception :=
  if decide (NoDup ids)
  then (Chroma_accepted documents ids db, None)
  else (Chroma_rejected documents ids db, Some DuplicateIDError).

Definition Chroma_persist (db : Chroma) : Chroma :=
  {| collection := collection db;
     persist_directory := collection db;
     calls := calls db ++ [Persist] |}.

(** ** [add_to_chroma] *)

(** The loop that collects [new_chunks], from the chunk [chunks_with_ids]
    starts with. *)
Fixpoint for_new_chunk (existing_ids : gset string)
    (chunks_with_ids new_chunks : list Document) : result (list Document) :=
  match chunks_with_ids with
  | [] => Return new_chunks
  | chunk :: rest =>
      i ← get_id chunk;
      if decide (i ∉ existing_ids)
      then for_new_chunk existing_ids rest (new_chunks ++ [chunk])
      else for_new_chunk existing_ids rest new_chunks
  end.

(** [[chunk.metadata["id"] for chunk in chunks]] *)
Fixpoint ids_of (chunks : list Document) : result (list string) :=
  match chunks with
  | [] => Return []
  | chunk :: rest => i ← get_id chunk; ids ← ids_of rest; Return (i :: ids)
  end.

(** What [add_to_chroma] computes before it touches the store: the
    identifiers in the store, the chunks to add and the identifiers to
    delete. *)
Record diff := {
  existing_ids : gset string;
  new_chunks : list Document;
  current_ids : gset string;
  obsolete_ids : gset string
}.

Definition compute_diff (db : Chroma) (chunks_with_ids : list Document) : result diff :=
  let existing_items := Chroma_get db in
  let existing_ids : gset string := list_to_set existing_items in
  new_chunks ← for_new_chunk existing_ids chunks_with_ids [];
  current_ids ← list_to_set <$> ids_of chunks_with_ids;
  let obsolete_ids := existing_ids ∖ current_ids in
  Return {| existing_ids := existing_ids; new_chunks := new_chunks;
            current_ids := current_ids; obsolete_ids := obsolete_ids |}.

(** The two guarded store updates that end [add_to_chroma]: the store
    object as they leave it, and the exception if one of them raised. *)
Definition apply_diff (db : Chroma) (d : diff) : Chroma * option exception :=
  let db :=
    if decide (obsolete_ids d ≠ ∅)
    then Chroma_persist (Chroma_delete (elements (obsolete_ids d)) db)
    else db in
  if decide (length (new_chunks d) ≠ 0)
  then
    match ids_of (new_chunks d) with
    | Raise e => (db, Some e)
    | Return new_chunk_ids =>
        match Chroma_add_documents (new_chunks d) new_chunk_ids db with
        | (db, Some e) => (db, Some e)
        | (db, None) => (Chroma_persist db, None)
        end
    end
  else (db, None).

(** [chroma] is what the directory [CHROMA_PATH] holds when the call
    starts.  [add_to_chroma_call] is the whole call: the store object as
    the call leaves it, and the exception if it raised. *)
Definition add_to_chroma_call (fs : filesystem) (chroma : gmap string Document)
    (chunks : list Document) : Chroma * option exception :=
  let db := Chroma_init chroma in
  match calculate_chunk_ids fs chunks with
  | (_, Some e) => (db, Some e)
  | (chunks_with_ids, None) =>
      match compute_diff db chunks_with_ids with
      | Raise e => (db, Some e)
      | Return d => apply_diff db d
      end
  end.

(** The call as its caller sees it: the store object it leaves when it
    returns, or the exception it raises. *)
Definition add_to_chroma (fs : filesystem) (chroma : gmap string Document)
    (chunks : list Document) : result Chroma :=
  match add_to_chroma_call fs chroma chunks with
  | (db, None) => Return db
  | (_, Some e) => Raise e
  end.

(** ** Notions the statements are written with *)

Fixpoint string_forall (P : ascii → bool) (s : string) : bool :=
  match s with
  | EmptyString => true
  | String c s' => P c && string_forall P s'
  end.

(** [s] has no [:] in it. *)
Definition no_colon (s : string) : bool :=
  string_forall (λ c, bool_decide (c ≠ ":"%char)) s.

(** [s] is made of decimal digits and [-] only. *)
Definition numeral (s : string) : bool :=
  string_forall (λ c, bool_decide (c ∈ String.list_ascii_of_string "0123456789-")) s.

(** Equal elements of [l] sit next to each other: whatever lies between
    two occurrences of [x] is [x] too. *)
Definition contiguous {A} (l : list A) : Prop :=
  ∀ i j k x y, i < j < k →
    l !! i = Some x → l !! k = Some x → l !! j = Some y → y = x.

(** The same, checked from the front: an element is followed by itself or
    does not come back. *)
Fixpoint grouped `{EqDecision A} (l : list A) : bool :=
  match l with
  | [] => true
  | x :: l' => (bool_decide (head l' = Some x) || bool_decide (x ∉ l')) && grouped l'
  end.

(** The [(source_path, unit_index)] pair of a chunk. *)
Definition unit_of (chunk : Document) : option string * option Z :=
  (source (metadata chunk), page (metadata chunk)).

(** The page key of a chunk, when its file can be fingerprinted. *)
Definition page_key (fs : filesystem) (chunk : Document) : result string :=
  fingerprint ← calculate_sha1 fs (source (metadata chunk));
  Return (str (source (metadata chunk)) +:+ ":" +:+ str (page (metadata chunk))
            +:+ ":" +:+ str fingerprint).

Fixpoint page_keys (fs : filesystem) (chunks : list Document) : result (list string) :=
  match chunks with
  | [] => Return []
  | chunk :: rest =>
      k ← page_key fs chunk; ks ← page_keys fs rest; Return (k :: ks)
  end.

(** Identity assignment as the specification words it: one pass over the
    page keys, in order, carrying [(last_page_key, running_index)] and
    giving out [page_key + ":" + running_index]. *)
Definition spec_step (st : option string * nat * list string) (page_key : string)
    : option string * nat * list string :=
  let '(last_page_key, running_index, identifiers) := st in
  let running_index :=
    if decide (last_page_key = Some page_key) then S running_index else 0 in
  (Some page_key, running_index,
   identifiers ++ [page_key +:+ ":" +:+ str running_index]).

Definition spec_identifiers (page_keys : list string) : list string :=
  (foldl spec_step (None, 0, []) page_keys).2.

(** The running index each page key gets, from a given loop state. *)
Fixpoint counters (last_page_id : option string) (current_chunk_index : nat)
    (keys : list string) : list nat :=
  match keys with
  | [] => []
  | k :: rest =>
      let n := if decide (Some k = last_page_id) then current_chunk_index + 1 else 0 in
      n :: counters (Some k) n rest
  end.

Definition identifier (k : string) (n : nat) : string := k +:+ ":" +:+ str n.

(** The identifiers the loop gives out from the state [(last, index)]. *)
Definition loop_ids (last : option string) (index : nat) (keys : list string)
    : list string :=
  zip_with identifier keys (counters last index keys).

(** The identifiers of a batch, as they stand in the metadata. *)
Definition identifiers (chunks : list Document) : list (option string) :=
  (λ chunk, id (metadata chunk)) <$> chunks.

(** The chunk carries an identifier that is in [ids]. *)
Definition identifier_in (ids : gset string) (chunk : Document) : Prop :=
  ∃ i, id (metadata chunk) = Some i ∧ i ∈ ids.

Global Instance identifier_in_dec ids chunk : Decision (identifier_in ids chunk).
Proof.
  unfold identifier_in. destruct (id (metadata chunk)) as [i|].
  - destruct (decide (i ∈ ids)); [left; eauto | right; intros (? & [= <-] & ?); done].
  - right. intros (? & [=] & _).
Defined.

(** The chunks of a batch whose identifier is not among [existing], in the
    order of the batch. *)
Definition unseen (existing : gset string) (chunks_with_ids : list Document)
    : list Document :=
  filter (λ chunk, ¬ identifier_in existing chunk) chunks_with_ids.

(** The store object once a run has deleted what the store holds and the
    batch, whose identifiers are [ids], does not. *)
Definition after_delete (chroma : gmap string Document) (ids : list string)
    : Chroma :=
  if decide (dom chroma ∖ list_to_set ids ≠ (∅ : gset string))
  then Chroma_persist
         (Chroma_delete (elements (dom chroma ∖ list_to_set ids))
            (Chroma_init chroma))
  else Chroma_init chroma.

(** The identifiers a run asked the store to delete, and to add. *)
Definition deleted_ids (cs : list call) : list string :=
  cs ≫= λ c, match c with Delete ids => ids | _ => [] end.

Definition added_ids (cs : list call) : list string :=
  cs ≫= λ c, match c with AddDocuments _ ids => ids | _ => [] end.


(** ** Sample inputs *)

Definition bytes (s : string) : list Byte.byte := String.list_byte_of_string s.

(** A data directory with two readable files, a sub-directory and a file
    that may not be read. *)
Definition sample_fs : filesystem :=
  {[ "report.md" := Regular (bytes "hello");
     "doc.pdf" := Regular (bytes "abc");
     "data" := Directory;
     "secret.md" := Protected (bytes "x") ]}.

(** A chunk as the splitter hands it over: no identifier yet. *)
Definition chunk_of (text : string) (source : option string) (page : option Z)
    : Document :=
  {| page_content := text;
     metadata := {| source := source; page := page; id := None |} |}.

(** Two chunks of page 1 of [doc.pdf], one of page 2, two of [report.md]. *)
Definition sample_batch : list Document :=
  [ chunk_of "a" (Some "doc.pdf") (Some 1%Z);
    chunk_of "b" (Some "doc.pdf") (Some 1%Z);
    chunk_of "c" (Some "doc.pdf") (Some 2%Z);
    chunk_of "d" (Some "report.md") None;
    chunk_of "e" (Some "report.md") None ].

(** Page 1 of [doc.pdf], then page 2, then page 1 again. *)
Definition interleaved_batch : list Document :=
  [ chunk_of "a" (Some "doc.pdf") (Some 1%Z);
    chunk_of "b" (Some "doc.pdf") (Some 2%Z);
    chunk_of "c" (Some "doc.pdf") (Some 1%Z) ].

(** A chunk of a file that is not there. *)
Definition missing_batch : list Document :=
  [ chunk_of "a" (Some "gone.pdf") (Some 1%Z) ].


(** The two chunks of [report.md]. *)
Definition report_batch : list Document :=
  [ chunk_of "d" (Some "report.md") None;
    chunk_of "e" (Some "report.md") None ].

(** A store that holds one stale document. *)
Definition sample_chroma : gmap string Document :=
  {[ "old.md:None:da39a3ee5e6b4b0d3255bfef95601890afd80709:0"
     := set_id (chunk_of "z" (Some "old.md") None)
          "old.md:None:da39a3ee5e6b4b0d3255bfef95601890afd80709:0" ]}.


(** The store object a run leaves, or a fresh one if the run raised. *)
Definition store_after (run : result Chroma) : Chroma :=
  match run with
  | Return db => db
  | Raise _ => Chroma_init ∅
  end.

Definition sample_run : Chroma :=
  Eval vm_compute in
    store_after (add_to_chroma sample_fs sample_chroma sample_batch).


(** ** The rest of the script

    The loaders and the splitter are library code: [load_documents],
    [split_documents] and [main] take them as they come.  The directory
    [CHROMA_PATH] is there with its documents, or is not there; a directory
    that is not there opens as an empty collection.  [main] gives back what
    the store object has written to the directory when the script ends,
    that is what a later [Chroma(persist_directory=CHROMA_PATH)] would
    open, and the exception that ended it, if one did. *)
Definition CHROMA_PATH : string := "chroma".
Definition DATA_PATH : string := "data".

Inductive loader_cls :=
  | UnstructuredMarkdownLoader
  | PyPDFDirectoryLoader
  | UnstructuredWordDocumentLoader.

(** [if os.path.exists(CHROMA_PATH): shutil.rmtree(CHROMA_PATH)] *)
Definition clear_database (chroma_dir : option (gmap string Document))
    : option (gmap string Document) :=
  if decide (is_Some chroma_dir) then None else chroma_dir.

Section script.
Context (DirectoryLoader_load : string → string → loader_cls → list Document).
Context (text_splitter_split_documents : list Document → list Document).

Definition load_documents : list Document :=
  let documents := [] in
  let documents :=
    documents ++ DirectoryLoader_load DATA_PATH "**/*.md" UnstructuredMarkdownLoader in
  let documents :=
    documents ++ DirectoryLoader_load DATA_PATH "**/*.pdf" PyPDFDirectoryLoader in
  let documents :=
    documents
    ++ DirectoryLoader_load DATA_PATH "**/*.docx" UnstructuredWordDocumentLoader in
  documents.

Definition split_documents (documents : list Document) : list Document :=
  text_splitter_split_documents documents.

Definition main (reset : bool) (fs : filesystem)
    (chroma_dir : option (gmap string Document))
    : gmap string Document * option exception :=
  let chroma_dir := if reset then clear_database chroma_dir else chroma_dir in
  let documents := load_documents in
  let chunks := split_documents documents in
  let '(db, raised) := add_to_chroma_call fs (default ∅ chroma_dir) chunks in
  (persist_directory db, raised).

End script.

(** Every document of the store sits under its own identifier. *)
Definition keyed_by_id (m : gmap string Document) : Prop :=
  ∀ i d, m !! i = Some d → id (metadata d) = Some i.

(** A loader that finds the sample batch among the Markdown files and
    nothing else, and a splitter that leaves its documents whole. *)
Definition sample_loader (path glob : string) (cls : loader_cls) : list Document :=
  match cls with
  | UnstructuredMarkdownLoader => sample_batch
  | _ => []
  end.

Definition whole_documents (documents : list Document) : list Document := documents.

(** A loader that finds the interleaved batch among the PDF files. *)
Definition interleaved_loader (path glob : string) (cls : loader_cls)
    : list Document :=
  match cls with
  | PyPDFDirectoryLoader => interleaved_batch
  | _ => []
  end.

(** The sample files after [report.md] was edited, and the store after a
    second run over them. *)
Definition changed_fs : filesystem :=
  <["report.md" := Regular (bytes "hello, world")]> sample_fs.

Definition changed_run : Chroma :=
  Eval vm_compute in
    store_after (add_to_chroma changed_fs (persist_directory sample_run)
                   sample_batch).

(** * Properties *)

(** ** Strings *)
Section strings.
Implicit Types (s t : string) (P : ascii → bool).

Lemma app_nil_s t : "" +:+ t = t.
Proof. reflexivity. Qed.

Lemma app_cons_s c s t : String c s +:+ t = String c (s +:+ t).
Proof. reflexivity. Qed.

Lemma app_assoc_s s1 s2 s3 : (s1 +:+ s2) +:+ s3 = s1 +:+ s2 +:+ s3.
Proof.
  induction s1 as [|c s1 IH]; [done|]. rewrite !app_cons_s. by f_equal.
Qed.

Lemma string_forall_app P s t :
  string_forall P (s +:+ t) = string_forall P s && string_forall P t.
Proof.
  induction s as [|c s IH]; [done|]. rewrite app_cons_s. simpl.
  rewrite IH. by rewrite andb_assoc.
Qed.

Lemma no_colon_app_colon s t : no_colon (s +:+ String ":" t) = false.
Proof.
  unfold no_colon. rewrite string_forall_app. simpl.
  by rewrite andb_false_r.
Qed.

(** A string is cut at its last colon in one way only. *)
Lemma cut_last_colon s1 s2 t1 t2 :
  no_colon t1 → no_colon t2 →
  s1 +:+ ":" +:+ t1 = s2 +:+ ":" +:+ t2 → s1 = s2 ∧ t1 = t2.
Proof.
  intros Ht1 Ht2. revert s2.
  induction s1 as [|c s1 IH]; intros [|c' s2];
    repeat (rewrite app_cons_s || rewrite app_nil_s); intros H; simplify_eq.
  - done.
  - by rewrite no_colon_app_colon in Ht1.
  - by rewrite no_colon_app_colon in Ht2.
  - destruct (IH s2) as [-> ->]; [|done].
    by repeat (rewrite app_cons_s || rewrite app_nil_s).
Qed.

(** A page identifier determines its three fields, as long as the last
    two have no colon. *)
Lemma page_id_inj s1 s2 p1 p2 h1 h2 :
  no_colon p1 → no_colon p2 → no_colon h1 → no_colon h2 →
  s1 +:+ ":" +:+ p1 +:+ ":" +:+ h1 = s2 +:+ ":" +:+ p2 +:+ ":" +:+ h2 →
  s1 = s2 ∧ p1 = p2 ∧ h1 = h2.
Proof.
  intros Hp1 Hp2 Hh1 Hh2 Heq.
  assert ((s1 +:+ ":" +:+ p1) +:+ ":" +:+ h1
          = (s2 +:+ ":" +:+ p2) +:+ ":" +:+ h2) as Heq'.
  { by rewrite !app_assoc_s. }
  apply cut_last_colon in Heq' as [Heq' ->]; [|done..].
  apply cut_last_colon in Heq' as [-> ->]; done.
Qed.

Lemma string_forall_pretty_N_go P (x : N) s :
  (∀ d, (d < 10)%N → P (pretty_N_char d)) →
  string_forall P (pretty_N_go x s) = string_forall P s.
Proof.
  intros HP. revert s. induction (N.lt_wf_0 x) as [x _ IH]; intros s.
  destruct (decide (x = 0%N)) as [->|Hx]; [by rewrite pretty_N_go_0|].
  rewrite pretty_N_go_step by lia.
  rewrite IH by (apply N.div_lt; lia). simpl.
  rewrite (Is_true_true_1 _ (HP (x `mod` 10)%N ltac:(by apply N.mod_lt))).
  done.
Qed.

Lemma string_forall_pretty_N P (x : N) :
  (∀ d, (d < 10)%N → P (pretty_N_char d)) → string_forall P (pretty x).
Proof.
  intros HP. unfold pretty, pretty_N. case_decide.
  - simpl. rewrite andb_true_r. apply (HP 0%N). done.
  - by rewrite string_forall_pretty_N_go.
Qed.

Lemma digit_cases (Q : N → Prop) :
  Q 0%N → Q 1%N → Q 2%N → Q 3%N → Q 4%N → Q 5%N → Q 6%N → Q 7%N → Q 8%N →
  Q 9%N → ∀ d, (d < 10)%N → Q d.
Proof.
  intros ?????????? d Hd.
  assert (d = 0 ∨ d = 1 ∨ d = 2 ∨ d = 3 ∨ d = 4 ∨ d = 5 ∨ d = 6 ∨ d = 7
          ∨ d = 8 ∨ d = 9)%N as Hc by lia.
  repeat (destruct Hc as [->|Hc]; [assumption|]). by subst.
Qed.

Lemma numeral_str_nat (n : nat) : numeral (str n).
Proof. apply string_forall_pretty_N, digit_cases; done. Qed.

Lemma numeral_str_int (z : Z) : numeral (str z).
Proof.
  unfold str, str_int, pretty, pretty_Z. destruct z as [|p|p]; [done|..].
  - apply string_forall_pretty_N, digit_cases; done.
  - unfold numeral. rewrite string_forall_app. apply andb_True. split; [done|].
    apply string_forall_pretty_N, digit_cases; done.
Qed.

Lemma string_forall_impl P1 P2 s :
  (∀ c, P1 c → P2 c) → string_forall P1 s → string_forall P2 s.
Proof.
  intros HP. induction s as [|c s IH]; simpl; [done|].
  rewrite !andb_True. intros [Hc Hs]. split; [by apply HP | by apply IH].
Qed.

Lemma numeral_no_colon s : numeral s → no_colon s.
Proof.
  apply string_forall_impl. intros c Hc.
  apply bool_decide_pack. intros ->. revert Hc. vm_compute. done.
Qed.

Lemma no_colon_str_nat (n : nat) : no_colon (str n).
Proof. apply numeral_no_colon, numeral_str_nat. Qed.

Lemma no_colon_str_page (page : option Z) : no_colon (str page).
Proof.
  destruct page as [z|]; [|done]. apply numeral_no_colon, numeral_str_int.
Qed.

Lemma str_page_inj (p1 p2 : option Z) : str p1 = str p2 → p1 = p2.
Proof.
  destruct p1 as [z1|], p2 as [z2|]; intros H; [| | |done].
  - f_equal. by apply (inj (pretty : Z → string)).
  - pose proof (numeral_str_int z1) as Hn.
    change (str z1 = "None") in H. by rewrite H in Hn.
  - pose proof (numeral_str_int z2) as Hn.
    change ("None" = str z2) in H. by rewrite <- H in Hn.
Qed.

Lemma hex_char_not_colon x : hashlib.hex_char x ≠ ":"%char.
Proof.
  destruct x as [|p|p]; [done| |done].
  do 4 (destruct p as [p|p|]; try done).
Qed.

Lemma no_colon_hex n x : no_colon (hashlib.hex n x).
Proof.
  induction n as [|n IH]; [done|].
  unfold no_colon in *. cbn [hashlib.hex string_forall].
  apply andb_True. split; [|exact IH].
  apply bool_decide_pack, hex_char_not_colon.
Qed.

Lemma no_colon_hexdigest m : no_colon (hashlib.hexdigest m).
Proof.
  unfold hashlib.hexdigest.
  generalize (hashlib.blocks
    (length (hashlib.pad (hashlib.byte_val <$> m)) / 64)
    (hashlib.pad (hashlib.byte_val <$> m)) hashlib.init).
  intros st. cbv zeta. unfold no_colon.
  rewrite !string_forall_app, !andb_True.
  split_and!; apply no_colon_hex.
Qed.

(** An identifier determines its page key and its running index. *)
Lemma identifier_inj k1 k2 (n1 n2 : nat) :
  identifier k1 n1 = identifier k2 n2 → k1 = k2 ∧ n1 = n2.
Proof.
  intros [-> H]%cut_last_colon; [|apply no_colon_str_nat..].
  split; [done|]. by apply (inj pretty).
Qed.

End strings.

(** ** Fingerprinting *)
Section fingerprint.
Context (fs : filesystem).
Implicit Types (chunk : Document) (path : string).

Lemma read_app n f data f' : read n f = (data, f') → data ++ f' = f.
Proof. unfold read. intros [= <- <-]. apply take_drop. Qed.

Lemma read_nil n f f' : (0 < n)%Z → read n f = ([], f') → f = [].
Proof.
  unfold read. intros Hn. assert (0 < Z.to_nat n) as Hn' by lia.
  revert Hn'. generalize (Z.to_nat n). intros m Hm [= Htake _].
  destruct f, m; done || lia.
Qed.

(** The read loop feeds the digest the whole file, block after block. *)
Lemma read_loop_all f sha1 : read_loop f sha1 = sha1 ++ f.
Proof.
  functional induction (read_loop f sha1).
  - match goal with H : read _ _ = _ |- _ =>
      apply read_nil in H as ->; [|done] end.
    by rewrite app_nil_r.
  - match goal with H : read _ _ = _, IH : read_loop _ _ = _ |- _ =>
      rewrite IH; apply read_app in H as <- end.
    unfold hashlib.update. by rewrite <- app_assoc.
Qed.

Lemma calculate_sha1_regular path content :
  fs !! path = Some (Regular content) →
  calculate_sha1 fs (Some path) = Return (Some (hashlib.hexdigest content)).
Proof.
  intros H. unfold calculate_sha1, open. rewrite H.
  by rewrite read_loop_all.
Qed.


(** The walk ends on one of four errors, each with the path in it. *)
Lemma walk_cases path pre name rest :
  walk fs path pre name rest = FileNotFoundError path
  ∨ walk fs path pre name rest = IsADirectoryError path
  ∨ walk fs path pre name rest = NotADirectoryError path
  ∨ walk fs path pre name rest = OSError path.
Proof.
  revert pre name. induction rest as [|c rest IH]; intros pre name;
    cbn [walk]; repeat case_match; auto.
Qed.

(** What [open] raises. *)
Lemma open_Raise filepath e :
  open fs filepath = Raise e →
  filepath = None ∧ e = TypeError
  ∨ ∃ path, filepath = Some path
      ∧ (e = ValueError ∨ e = FileNotFoundError path
         ∨ e = IsADirectoryError path ∨ e = NotADirectoryError path
         ∨ e = PermissionError path ∨ e = OSError path).
Proof.
  unfold open. destruct filepath as [path|]; [|intros [= <-]; by left].
  intros H. right. exists path. split; [done|].
  destruct (fs !! path) as [[content| |content]|]; simplify_eq; auto 10.
  unfold no_such_file. repeat case_match; auto 10.
  destruct (walk_cases path "" "" path) as [->|[->|[->| ->]]]; auto 10.
Qed.



(** A fingerprint that comes back is [None] or a digest, and it comes
    back for a path only. *)
Lemma calculate_sha1_Return filepath h :
  calculate_sha1 fs filepath = Return h →
  (∃ path, filepath = Some path) ∧ no_colon (str h).
Proof.
  unfold calculate_sha1. destruct (open fs filepath) as [f|e] eqn:Hopen.
  - intros [= <-]. split; [|apply no_colon_hexdigest].
    destruct filepath; [by eexists|done].
  - destruct filepath as [path|]; [|by simplify_eq/=].
    destruct e; intros [= <-]. split; [by eexists|done].
Qed.

(** What [calculate_sha1] raises is what [open] raised, and it is never
    [FileNotFoundError]. *)
Lemma calculate_sha1_Raise filepath e :
  calculate_sha1 fs filepath = Raise e →
  open fs filepath = Raise e ∧ ∀ filename, e ≠ FileNotFoundError filename.
Proof.
  unfold calculate_sha1. destruct (open fs filepath) as [f|e']; [done|].
  destruct e'; intros [= <-]; done.
Qed.

(** Two chunks have the same page key exactly when they have the same
    [(source_path, unit_index)] pair. *)
Lemma page_key_eq_iff chunk1 chunk2 k1 k2 :
  page_key fs chunk1 = Return k1 → page_key fs chunk2 = Return k2 →
  k1 = k2 ↔ unit_of chunk1 = unit_of chunk2.
Proof.
  unfold page_key, unit_of.
  destruct chunk1 as [t1 [s1 p1 i1]], chunk2 as [t2 [s2 p2 i2]]; simpl.
  destruct (calculate_sha1 fs s1) as [h1|] eqn:H1; [|done].
  destruct (calculate_sha1 fs s2) as [h2|] eqn:H2; [|done].
  intros [= <-] [= <-]. split.
  - intros Heq.
    destruct (calculate_sha1_Return _ _ H1) as [[path1 ->] Hc1].
    destruct (calculate_sha1_Return _ _ H2) as [[path2 ->] Hc2].
    apply page_id_inj in Heq as (Hs & Hp & _);
      [|done || apply no_colon_str_page..].
    apply str_page_inj in Hp. change (path1 = path2) in Hs. by subst.
  - intros [= -> ->]. rewrite H1 in H2. by injection H2 as ->.
Qed.

End fingerprint.

(** ** Identity assignment *)
Section assign.
Context (fs : filesystem).
Implicit Types (chunk : Document) (chunks : list Document)
  (keys : list string) (last : option string).

Lemma page_keys_cons chunk chunks keys :
  page_keys fs (chunk :: chunks) = Return keys →
  ∃ h k keys',
    calculate_sha1 fs (source (metadata chunk)) = Return h
    ∧ page_key fs chunk = Return k
    ∧ k = str (source (metadata chunk)) +:+ ":" +:+ str (page (metadata chunk))
            +:+ ":" +:+ str h
    ∧ page_keys fs chunks = Return keys' ∧ keys = k :: keys'.
Proof.
  simpl. unfold page_key.
  destruct (calculate_sha1 fs (source (metadata chunk))) as [h|]; [|done].
  simpl. destruct (page_keys fs chunks) as [keys'|]; [|done].
  intros [= <-]. eauto 10.
Qed.

Lemma page_keys_length chunks keys :
  page_keys fs chunks = Return keys → length keys = length chunks.
Proof.
  revert keys. induction chunks as [|chunk chunks IH]; intros keys.
  - by intros [= <-].
  - intros (h & k & keys' & _ & _ & _ & Hks & ->)%page_keys_cons.
    simpl. f_equal. by apply IH.
Qed.

Lemma page_keys_lookup chunks keys i chunk :
  page_keys fs chunks = Return keys → chunks !! i = Some chunk →
  ∃ k, page_key fs chunk = Return k ∧ keys !! i = Some k.
Proof.
  revert keys i. induction chunks as [|c chunks IH]; intros keys i; [done|].
  intros (h & k & keys' & _ & Hk & _ & Hks & ->)%page_keys_cons.
  destruct i as [|i]; simpl.
  - intros [= <-]. eauto.
  - intros Hi. by apply IH.
Qed.

Lemma page_keys_app chunks1 chunks2 keys :
  page_keys fs (chunks1 ++ chunks2) = Return keys →
  ∃ keys1 keys2, page_keys fs chunks1 = Return keys1
    ∧ page_keys fs chunks2 = Return keys2 ∧ keys = keys1 ++ keys2.
Proof.
  revert keys. induction chunks1 as [|c chunks1 IH]; intros keys.
  - intros H. by exists [], keys.
  - rewrite <- app_comm_cons.
    intros (h & k & keys' & Hh & Hk & _ & Hks & ->)%page_keys_cons.
    destruct (IH _ Hks) as (keys1 & keys2 & H1 & H2 & ->).
    exists (k :: keys1), keys2. simpl. by rewrite Hk, H1.
Qed.

(** The loop on a batch whose files can all be fingerprinted: it returns,
    and every chunk carries the identifier made of its page key and its
    running index. *)
Lemma for_chunk_returns last index chunks keys :
  page_keys fs chunks = Return keys →
  for_chunk fs last index chunks
  = (zip_with set_id chunks (loop_ids last index keys), None).
Proof.
  revert last index keys.
  induction chunks as [|chunk chunks IH]; intros last index keys.
  - by intros [= <-].
  - intros (h & k & keys' & Hh & _ & -> & Hks & ->)%page_keys_cons.
    cbn [for_chunk]. rewrite Hh. cbv zeta.
    erewrite IH by done. done.
Qed.

(** The loop up to the first chunk whose file cannot be fingerprinted: the
    chunks before it have their identifier, it and the chunks after it are
    as they were, and the exception is the caller's. *)
Lemma for_chunk_raises last index chunks1 chunk chunks2 keys e :
  page_keys fs chunks1 = Return keys →
  calculate_sha1 fs (source (metadata chunk)) = Raise e →
  for_chunk fs last index (chunks1 ++ chunk :: chunks2)
  = (zip_with set_id chunks1 (loop_ids last index keys) ++ chunk :: chunks2,
     Some e).
Proof.
  intros Hks He. revert last index keys Hks.
  induction chunks1 as [|c chunks1 IH]; intros last index keys.
  - intros [= <-]. cbn [for_chunk app]. by rewrite He.
  - intros (h & k & keys' & Hh & _ & -> & Hks & ->)%page_keys_cons.
    rewrite <- app_comm_cons. cbn [for_chunk]. rewrite Hh. cbv zeta.
    erewrite IH by done. done.
Qed.

(** A loop that returns has fingerprinted every file. *)
Lemma for_chunk_None last index chunks chunks' :
  for_chunk fs last index chunks = (chunks', None) →
  ∃ keys, page_keys fs chunks = Return keys.
Proof.
  revert last index chunks'.
  induction chunks as [|chunk chunks IH]; intros last index chunks'.
  - by exists [].
  - cbn [for_chunk page_keys]. unfold page_key.
    destruct (calculate_sha1 fs (source (metadata chunk))) as [h|]; [|done].
    cbv zeta. simpl.
    destruct (for_chunk fs _ _ chunks) as [rest' raised] eqn:Hrest.
    intros [= _ ->]. destruct (IH _ _ _ Hrest) as [keys ->]. by eexists.
Qed.

Lemma calculate_chunk_ids_None chunks chunks' :
  calculate_chunk_ids fs chunks = (chunks', None) →
  ∃ keys, page_keys fs chunks = Return keys
    ∧ chunks' = zip_with set_id chunks (loop_ids None 0 keys).
Proof.
  intros H. destruct (for_chunk_None _ _ _ _ H) as [keys Hks].
  exists keys. split; [done|].
  unfold calculate_chunk_ids in H. rewrite (for_chunk_returns _ _ _ _ Hks) in H.
  by injection H as <-.
Qed.

Lemma loop_ids_length last index keys :
  length (loop_ids last index keys) = length keys.
Proof.
  unfold loop_ids. revert last index.
  induction keys as [|k keys IH]; intros last index; [done|].
  simpl. f_equal. apply IH.
Qed.

(** The one pass of the specification gives out the loop's identifiers. *)
Lemma foldl_spec_step last index out keys :
  (foldl spec_step (last, index, out) keys).2 = out ++ loop_ids last index keys.
Proof.
  unfold loop_ids. revert last index out.
  induction keys as [|k keys IH]; intros last index out.
  - by rewrite app_nil_r.
  - cbn [foldl spec_step counters zip_with]. rewrite IH.
    rewrite <- app_assoc. f_equal. simpl. unfold identifier.
    destruct (decide (last = Some k)), (decide (Some k = last));
      try congruence; by rewrite ?Nat.add_1_r.
Qed.

Lemma spec_identifiers_loop_ids keys :
  spec_identifiers keys = loop_ids None 0 keys.
Proof. unfold spec_identifiers. by rewrite foldl_spec_step. Qed.

Lemma identifiers_zip_with_set_id chunks ids :
  length ids = length chunks →
  identifiers (zip_with set_id chunks ids) = Some <$> ids.
Proof.
  unfold identifiers. revert ids.
  induction chunks as [|c chunks IH]; intros [|i ids]; try done.
  intros [= Hlen]. simpl. f_equal. by apply IH.
Qed.

End assign.

(** ** Contiguity *)
Section contiguous.
Context `{EqDecision A}.
Implicit Types (l : list A) (x y : A).

Lemma grouped_cons x l :
  grouped (x :: l) ↔ (head l = Some x ∨ x ∉ l) ∧ grouped l.
Proof.
  cbn [grouped]. rewrite andb_True, orb_True, !bool_decide_spec. done.
Qed.

Lemma contiguous_tail x l : contiguous (x :: l) → contiguous l.
Proof.
  intros H i j k a b Hlt Hi Hk Hj.
  apply (H (S i) (S j) (S k)); [lia|done..].
Qed.

Lemma grouped_contiguous l : grouped l → contiguous l.
Proof.
  induction l as [|x l IH]; [by intros _ i j k a b _ ?|].
  intros [Hx Hl]%grouped_cons. specialize (IH Hl).
  intros i j k a b Hlt Hi Hk Hj.
  destruct i as [|i].
  - injection Hi as ->.
    destruct k as [|k]; [lia|]. destruct j as [|j]; [lia|].
    simpl in Hk, Hj.
    destruct Hx as [Hhead|Hnot];
      [|destruct Hnot; by eapply list_elem_of_lookup_2].
    destruct l as [|z l]; [done|]. injection Hhead as ->.
    destruct j as [|j]; [by injection Hj|].
    apply (IH 0 (S j) k); [lia|done..].
  - destruct j as [|j]; [lia|]. destruct k as [|k]; [lia|].
    apply (IH i j k); [lia|done..].
Qed.

Lemma contiguous_grouped l : contiguous l → grouped l.
Proof.
  induction l as [|x l IH]; [done|].
  intros H. apply grouped_cons. split; [|by eapply IH, contiguous_tail].
  destruct (decide (x ∈ l)) as [Hin|]; [left|by right].
  apply list_elem_of_lookup_1 in Hin as [k Hk].
  destruct l as [|z l]; [done|]. simpl. f_equal.
  destruct k as [|k]; [by injection Hk|].
  apply (H 0 1 (S (S k))); [lia|done..].
Qed.

Global Instance contiguous_dec l : Decision (contiguous l) :=
  match decide (grouped l) with
  | left H => left (grouped_contiguous l H)
  | right H => right (λ H', H (contiguous_grouped l H'))
  end.

End contiguous.

(** ** Identifiers are distinct when page keys are contiguous *)
Section distinct.
Implicit Types (keys : list string) (last : option string).

Lemma counters_length last index keys :
  length (counters last index keys) = length keys.
Proof.
  revert last index. induction keys as [|k keys IH]; intros last index;
    [done|]. simpl. f_equal. apply IH.
Qed.

(** While the page key stays the same the running index only grows. *)
Lemma counters_same_key k keys index n :
  grouped (k :: keys) →
  (k, n) ∈ zip keys (counters (Some k) index keys) → index < n.
Proof.
  revert index. induction keys as [|k' keys IH]; intros index.
  - intros _ Hin. simpl in Hin. by apply elem_of_nil in Hin.
  - intros [Hk Hg]%grouped_cons Hin.
    destruct Hk as [[= ->]|Hnot];
      [|destruct Hnot; by eapply elem_of_zip_l].
    cbn [counters zip zip_with] in Hin. rewrite decide_True in Hin by done.
    apply elem_of_cons in Hin as [[= ->]|Hin]; [lia|].
    apply IH in Hin; [lia|done].
Qed.

Lemma NoDup_zip_counters last index keys :
  grouped keys → NoDup (zip keys (counters last index keys)).
Proof.
  revert last index. induction keys as [|k keys IH]; intros last index.
  - intros _. constructor.
  - intros Hg. cbn [counters zip zip_with]. constructor.
    + intros Hin%counters_same_key; [lia|done].
    + apply IH. by apply grouped_cons in Hg as [_ ?].
Qed.

Lemma NoDup_loop_ids last index keys :
  contiguous keys → NoDup (loop_ids last index keys).
Proof.
  intros Hc%contiguous_grouped.
  assert (loop_ids last index keys
          = (λ kn, identifier kn.1 kn.2) <$> zip keys (counters last index keys))
    as ->.
  { clear Hc. unfold loop_ids. generalize (counters last index keys).
    intros ns. revert ns. induction keys as [|k keys IH]; intros [|n ns]; try done.
    simpl. f_equal. apply IH. }
  apply NoDup_fmap_2_strong; [|by apply NoDup_zip_counters].
  intros [k1 n1] [k2 n2] _ _ Heq. simpl in Heq.
  by apply identifier_inj in Heq as [-> ->].
Qed.

(** Contiguous [(source_path, unit_index)] pairs give contiguous page
    keys. *)
Lemma contiguous_page_keys fs chunks keys :
  page_keys fs chunks = Return keys →
  contiguous (unit_of <$> chunks) → contiguous keys.
Proof.
  intros Hks Hc i j k x y Hlt Hi Hk Hj.
  pose proof (page_keys_length _ _ _ Hks) as Hlen.
  assert (∀ n key, keys !! n = Some key →
            ∃ chunk, chunks !! n = Some chunk ∧ page_key fs chunk = Return key)
    as Hchunk.
  { intros n key Hn.
    destruct (lookup_lt_is_Some_2 chunks n) as [chunk Hchunk].
    { rewrite <- Hlen. by eapply lookup_lt_Some. }
    destruct (page_keys_lookup _ _ _ _ _ Hks Hchunk) as (key' & Hkey & Hn').
    exists chunk. split; [done|]. congruence. }
  destruct (Hchunk _ _ Hi) as (ci & Hci & Hki).
  destruct (Hchunk _ _ Hk) as (ck & Hck & Hkk).
  destruct (Hchunk _ _ Hj) as (cj & Hcj & Hkj).
  apply (page_key_eq_iff fs cj ci y x Hkj Hki).
  apply (Hc i j k); [done| | |].
  - by rewrite list_lookup_fmap, Hci.
  - rewrite list_lookup_fmap, Hck. simpl. f_equal.
    by apply (page_key_eq_iff fs ck ci x x Hkk Hki).
  - by rewrite list_lookup_fmap, Hcj.
Qed.

End distinct.

(** ** The store *)
Section store.
Implicit Types (m : gmap string Document) (ids : list string)
  (documents : list Document) (db : Chroma).

Lemma lookup_foldr_delete m ids i :
  foldr base.delete m ids !! i = if decide (i ∈ ids) then None else m !! i.
Proof.
  induction ids as [|j ids IH]; simpl; [done|].
  destruct (decide (j = i)) as [->|Hne].
  - rewrite lookup_delete_eq. rewrite decide_True; [done|]. by left.
  - rewrite lookup_delete_ne by done. rewrite IH.
    destruct (decide (i ∈ ids)).
    + rewrite decide_True; [done|]. by right.
    + rewrite decide_False; [done|]. intros [->|?]%elem_of_cons; done.
Qed.

Lemma dom_foldr_delete m ids :
  dom (foldr base.delete m ids) = dom m ∖ list_to_set ids.
Proof.
  apply set_eq. intros i. rewrite elem_of_dom, lookup_foldr_delete.
  rewrite elem_of_difference, elem_of_dom, elem_of_list_to_set.
  destruct (decide (i ∈ ids)); [|tauto].
  split; [by intros [? ?]|tauto].
Qed.

Lemma lookup_foldl_insert_notin m ids documents i :
  i ∉ ids →
  foldl (λ m '(i, d), <[i := d]> m) m (zip ids documents) !! i = m !! i.
Proof.
  revert m documents. induction ids as [|j ids IH]; intros m [|d documents];
    try done.
  intros [Hne Hnot]%not_elem_of_cons. simpl. rewrite IH by done.
  by rewrite lookup_insert_ne.
Qed.

Lemma dom_foldl_insert m ids documents :
  length documents = length ids →
  dom (foldl (λ m '(i, d), <[i := d]> m) m (zip ids documents))
  = dom m ∪ list_to_set ids.
Proof.
  revert m documents. induction ids as [|j ids IH]; intros m [|d documents];
    try done; simpl.
  - intros _. by rewrite (right_id_L ∅ (∪)).
  - intros [= Hlen]. rewrite IH by done. rewrite dom_insert_L.
    by rewrite (comm_L (∪) {[j]} (dom m)), (assoc_L (∪)).
Qed.

End store.

(** ** The diff *)
Section diff.
Implicit Types (chunk : Document) (chunks : list Document)
  (ids : list string) (existing : gset string).

Lemma ids_of_cons chunk chunks ids :
  ids_of (chunk :: chunks) = Return ids →
  ∃ i ids', id (metadata chunk) = Some i ∧ ids_of chunks = Return ids'
    ∧ ids = i :: ids'.
Proof.
  simpl. unfold get_id. destruct (id (metadata chunk)) as [i|]; [|done].
  simpl. destruct (ids_of chunks) as [ids'|]; [|done].
  intros [= <-]. eauto.
Qed.

Lemma ids_of_zip_with_set_id chunks ids :
  length ids = length chunks →
  ids_of (zip_with set_id chunks ids) = Return ids.
Proof.
  revert ids. induction chunks as [|c chunks IH]; intros [|i ids]; try done.
  intros [= Hlen]. simpl. by rewrite IH.
Qed.

Lemma ids_of_length chunks ids :
  ids_of chunks = Return ids → length ids = length chunks.
Proof.
  revert ids. induction chunks as [|c chunks IH]; intros ids.
  - by intros [= <-].
  - intros (i & ids' & _ & H & ->)%ids_of_cons. simpl. f_equal. by apply IH.
Qed.

Lemma ids_of_elem_of chunks ids i :
  ids_of chunks = Return ids →
  i ∈ ids ↔ ∃ chunk, chunk ∈ chunks ∧ id (metadata chunk) = Some i.
Proof.
  revert ids. induction chunks as [|c chunks IH]; intros ids.
  - intros [= <-]. split; [by intros ?%elem_of_nil|].
    by intros (? & ?%elem_of_nil & _).
  - intros (j & ids' & Hj & H & ->)%ids_of_cons.
    rewrite elem_of_cons, (IH _ H). split.
    + intros [->|(chunk & Hin & Hid)].
      * exists c. split; [by left|done].
      * exists chunk. split; [by right|done].
    + intros (chunk & [->|Hin]%elem_of_cons & Hid).
      * left. congruence.
      * right. eauto.
Qed.

Lemma ids_of_identifiers chunks ids :
  ids_of chunks = Return ids → identifiers chunks = Some <$> ids.
Proof.
  revert ids. induction chunks as [|c chunks IH]; intros ids.
  - by intros [= <-].
  - intros (i & ids' & Hi & H & ->)%ids_of_cons.
    unfold identifiers. rewrite !fmap_cons, Hi. f_equal. by apply IH.
Qed.

Lemma ids_of_filter (P : Document → Prop) `{∀ c, Decision (P c)} chunks ids :
  ids_of chunks = Return ids →
  ∃ ids', ids_of (filter P chunks) = Return ids'.
Proof.
  revert ids. induction chunks as [|c chunks IH]; intros ids.
  - by exists [].
  - intros (j & ids' & Hj & Hids & ->)%ids_of_cons.
    destruct (IH _ Hids) as [ids'' Hf].
    rewrite filter_cons. destruct (decide (P c)); [|by eauto].
    exists (j :: ids''). simpl. unfold get_id. rewrite Hj. simpl.
    by rewrite Hf.
Qed.

(** The loop that collects the new chunks keeps, in order, the chunks
    whose identifier the store does not have. *)
Lemma for_new_chunk_filter existing chunks acc ids :
  ids_of chunks = Return ids →
  for_new_chunk existing chunks acc
  = Return (acc ++ unseen existing chunks).
Proof.
  unfold unseen. revert acc ids. induction chunks as [|c chunks IH]; intros acc ids.
  - intros _. simpl. by rewrite app_nil_r.
  - intros (j & ids' & Hj & Hids & ->)%ids_of_cons.
    cbn [for_new_chunk]. unfold get_id. rewrite Hj. simpl.
    rewrite filter_cons.
    destruct (decide (j ∉ existing)) as [Hnew|Hold].
    + rewrite decide_True.
      * rewrite (IH _ _ Hids). by rewrite <- app_assoc.
      * intros (i & Hi & Hin). congruence.
    + rewrite decide_False.
      * by rewrite (IH _ _ Hids).
      * intros Hnot. apply Hnot. exists j. split; [done|].
        by apply dec_stable.
Qed.

Lemma compute_diff_Return chroma chunks ids :
  ids_of chunks = Return ids →
  compute_diff (Chroma_init chroma) chunks
  = Return {| existing_ids := dom chroma;
              new_chunks := unseen (dom chroma) chunks;
              current_ids := list_to_set ids;
              obsolete_ids := dom chroma ∖ list_to_set ids |}.
Proof.
  intros Hids. unfold compute_diff, Chroma_get. cbn [collection Chroma_init].
  rewrite list_to_set_elements_L.
  rewrite (for_new_chunk_filter _ _ _ _ Hids). simpl.
  rewrite Hids. done.
Qed.

End diff.

(** The chunk at position [i] after a call that returned. *)
Lemma calculate_chunk_ids_lookup fs chunks chunks' i chunk :
  calculate_chunk_ids fs chunks = (chunks', None) →
  chunks !! i = Some chunk →
  ∃ k n, page_key fs chunk = Return k
    ∧ chunks' !! i = Some (set_id chunk (identifier k n)).
Proof.
  intros (keys & Hks & ->)%calculate_chunk_ids_None Hi.
  destruct (page_keys_lookup _ _ _ _ _ Hks Hi) as (k & Hk & Hki).
  destruct (lookup_lt_is_Some_2 (counters None 0 keys) i) as [n Hn].
  { rewrite counters_length. by eapply lookup_lt_Some. }
  exists k, n. split; [done|].
  unfold loop_ids. rewrite !lookup_zip_with, Hi, Hki, Hn. done.
Qed.

(** ** Synchronisation *)
Section sync.
Context (fs : filesystem) (chroma : gmap string Document).
Implicit Types (chunks : list Document) (ids : list string) (db : Chroma).

Lemma calculate_chunk_ids_ids_of chunks chunks_with_ids :
  calculate_chunk_ids fs chunks = (chunks_with_ids, None) →
  ∃ ids, ids_of chunks_with_ids = Return ids
    ∧ identifiers chunks_with_ids = Some <$> ids.
Proof.
  intros (keys & Hks & ->)%calculate_chunk_ids_None.
  assert (length (loop_ids None 0 keys) = length chunks) as Hlen.
  { rewrite loop_ids_length. by eapply page_keys_length. }
  exists (loop_ids None 0 keys).
  by rewrite ids_of_zip_with_set_id, identifiers_zip_with_set_id.
Qed.

Lemma identifiers_ids_of chunks ids i :
  ids_of chunks = Return ids → Some i ∈ identifiers chunks ↔ i ∈ ids.
Proof.
  intros Hids. rewrite (ids_of_elem_of _ _ _ Hids).
  unfold identifiers. rewrite list_elem_of_fmap. split.
  - intros (chunk & Hid & Hin). eauto.
  - intros (chunk & Hin & Hid). eauto.
Qed.

Lemma unseen_ids chunks ids new_ids i :
  ids_of chunks = Return ids →
  ids_of (unseen (dom chroma) chunks) = Return new_ids →
  i ∈ new_ids ↔ i ∈ ids ∧ i ∉ dom chroma.
Proof.
  unfold unseen. intros Hids Hnew.
  rewrite (ids_of_elem_of _ _ _ Hids), (ids_of_elem_of _ _ _ Hnew). split.
  - intros (chunk & [Hnot Hin]%list_elem_of_filter & Hid).
    split; [by eauto|]. intros Hi. apply Hnot. by exists i.
  - intros [(chunk & Hin & Hid) Hi]. exists chunk. split; [|done].
    apply list_elem_of_filter. split; [|done].
    intros (j & Hj & Hjin). congruence.
Qed.

(** What a call does, spelled out, on a batch whose identifiers are [ids],
    the new ones among them [new_ids]. *)
Lemma add_to_chroma_call_run chunks chunks_with_ids ids new_ids :
  calculate_chunk_ids fs chunks = (chunks_with_ids, None) →
  ids_of chunks_with_ids = Return ids →
  ids_of (unseen (dom chroma) chunks_with_ids) = Return new_ids →
  add_to_chroma_call fs chroma chunks
  = if decide (length (unseen (dom chroma) chunks_with_ids) ≠ 0)
    then
      if decide (NoDup new_ids)
      then (Chroma_persist
              (Chroma_accepted (unseen (dom chroma) chunks_with_ids) new_ids
                 (after_delete chroma ids)), None)
      else (Chroma_rejected (unseen (dom chroma) chunks_with_ids) new_ids
              (after_delete chroma ids), Some DuplicateIDError)
    else (after_delete chroma ids, None).
Proof.
  intros Hcall Hids Hnew. unfold add_to_chroma_call. rewrite Hcall.
  rewrite (compute_diff_Return _ _ _ Hids).
  unfold apply_diff. cbn [obsolete_ids new_chunks]. fold (after_delete chroma ids).
  destruct (decide (length (unseen (dom chroma) chunks_with_ids) ≠ 0)); [|done].
  rewrite Hnew. unfold Chroma_add_documents.
  by destruct (decide (NoDup new_ids)).
Qed.

Lemma add_to_chroma_run chunks chunks_with_ids ids new_ids :
  calculate_chunk_ids fs chunks = (chunks_with_ids, None) →
  ids_of chunks_with_ids = Return ids →
  ids_of (unseen (dom chroma) chunks_with_ids) = Return new_ids →
  NoDup new_ids →
  add_to_chroma fs chroma chunks
  = Return
      (if decide (length (unseen (dom chroma) chunks_with_ids) ≠ 0)
       then Chroma_persist
              (Chroma_accepted (unseen (dom chroma) chunks_with_ids) new_ids
                 (after_delete chroma ids))
       else after_delete chroma ids).
Proof.
  intros Hcall Hids Hnew Hnodup. unfold add_to_chroma.
  rewrite (add_to_chroma_call_run _ _ _ _ Hcall Hids Hnew).
  rewrite (decide_True (P:=NoDup new_ids)) by done.
  by destruct (decide (length (unseen (dom chroma) chunks_with_ids) ≠ 0)).
Qed.

(** A batch whose new identifiers are not all different: the store rejects
    the addition, after the deletions were made and written. *)
Lemma add_to_chroma_call_duplicate chunks chunks_with_ids ids new_ids :
  calculate_chunk_ids fs chunks = (chunks_with_ids, None) →
  ids_of chunks_with_ids = Return ids →
  ids_of (unseen (dom chroma) chunks_with_ids) = Return new_ids →
  ¬ NoDup new_ids →
  add_to_chroma_call fs chroma chunks
  = (Chroma_rejected (unseen (dom chroma) chunks_with_ids) new_ids
       (after_delete chroma ids), Some DuplicateIDError).
Proof.
  intros Hcall Hids Hnew Hdup.
  rewrite (add_to_chroma_call_run _ _ _ _ Hcall Hids Hnew).
  rewrite (decide_False (P:=NoDup new_ids)) by done.
  rewrite decide_True; [done|].
  intros Hnil%length_zero_iff_nil. rewrite Hnil in Hnew.
  injection Hnew as <-. apply Hdup. constructor.
Qed.

Lemma add_to_chroma_Return chunks db :
  add_to_chroma fs chroma chunks = Return db →
  ∃ chunks_with_ids ids new_ids,
    calculate_chunk_ids fs chunks = (chunks_with_ids, None)
    ∧ ids_of chunks_with_ids = Return ids
    ∧ ids_of (unseen (dom chroma) chunks_with_ids) = Return new_ids
    ∧ NoDup new_ids.
Proof.
  intros Hrun.
  destruct (calculate_chunk_ids fs chunks) as [chunks_with_ids [e|]] eqn:Hcall.
  { unfold add_to_chroma, add_to_chroma_call in Hrun. by rewrite Hcall in Hrun. }
  destruct (calculate_chunk_ids_ids_of _ _ Hcall) as (ids & Hids & _).
  destruct (ids_of_filter (λ chunk, ¬ identifier_in (dom chroma) chunk)
              _ _ Hids) as [new_ids Hnew].
  exists chunks_with_ids, ids, new_ids. split_and!; [done..|].
  destruct (decide (NoDup new_ids)) as [|Hdup]; [done|].
  unfold add_to_chroma in Hrun.
  by rewrite (add_to_chroma_call_duplicate _ _ _ _ Hcall Hids Hnew Hdup) in Hrun.
Qed.

End sync.

Section run.
Context (fs : filesystem) (chroma : gmap string Document).
Context (chunks chunks_with_ids : list Document) (ids new_ids : list string).
Context (db : Chroma).
Hypothesis Hcall : calculate_chunk_ids fs chunks = (chunks_with_ids, None).
Hypothesis Hids : ids_of chunks_with_ids = Return ids.
Hypothesis Hnew : ids_of (unseen (dom chroma) chunks_with_ids) = Return new_ids.
Hypothesis Hrun : add_to_chroma fs chroma chunks = Return db.

Local Ltac case_done :=
  first [ done | by left | by right | by (simpl; rewrite ?app_nil_r)
        | by (intros; exfalso; auto) ].

Lemma run_NoDup : NoDup new_ids.
Proof.
  destruct (add_to_chroma_Return _ _ _ _ Hrun)
    as (chunks_with_ids' & ids' & new_ids' & Hcall' & _ & Hnew' & Hnodup).
  rewrite Hcall in Hcall'. injection Hcall' as <-.
  rewrite Hnew in Hnew'. by injection Hnew' as <-.
Qed.

Lemma run_cases :
  ∃ deleted added,
    (deleted = [] ∨ deleted = elements (dom chroma ∖ list_to_set ids))
    ∧ (added = [] ∨ added = new_ids)
    ∧ (dom chroma ∖ list_to_set ids ≠ ∅ →
       deleted = elements (dom chroma ∖ list_to_set ids))
    ∧ (unseen (dom chroma) chunks_with_ids ≠ [] → added = new_ids)
    ∧ deleted_ids (calls db) = deleted
    ∧ added_ids (calls db) = added
    ∧ collection db
      = foldl (λ m '(i, d), <[i := d]> m) (foldr base.delete chroma deleted)
          (zip added (unseen (dom chroma) chunks_with_ids))
    ∧ persist_directory db = collection db.
Proof.
  pose proof (add_to_chroma_run _ _ _ _ _ _ Hcall Hids Hnew run_NoDup) as Hdb.
  rewrite Hrun in Hdb. injection Hdb as ->.
  pose proof (ids_of_length _ _ Hnew) as Hlen.
  unfold after_delete.
  destruct (decide (dom chroma ∖ list_to_set ids ≠ ∅)) as [Hobs|Hobs];
    destruct (decide (length (unseen (dom chroma) chunks_with_ids) ≠ 0))
      as [Hadd|Hadd].
  - exists (elements (dom chroma ∖ list_to_set ids)), new_ids.
    split_and!; case_done.
  - exists (elements (dom chroma ∖ list_to_set ids)), [].
    apply dec_stable in Hadd. apply length_zero_iff_nil in Hadd.
    split_and!; case_done.
  - exists [], new_ids.
    split_and!; case_done.
  - exists [], [].
    apply dec_stable in Hadd. apply length_zero_iff_nil in Hadd.
    split_and!; case_done.
Qed.

(** Outside the identifiers it deletes and the identifiers it adds, a run
    leaves the store as it found it. *)
Lemma run_frame i :
  i ∉ dom chroma ∖ list_to_set ids → i ∉ new_ids →
  collection db !! i = chroma !! i ∧ persist_directory db !! i = chroma !! i.
Proof.
  intros Hobs Hadd.
  destruct run_cases
    as (deleted & added & Hdel & Hadded & _ & _ & _ & _ & Hcol & ->).
  cut (collection db !! i = chroma !! i); [done|]. rewrite Hcol.
  rewrite lookup_foldl_insert_notin
    by (destruct Hadded as [->| ->]; [apply not_elem_of_nil|done]).
  rewrite lookup_foldr_delete. rewrite decide_False; [done|].
  destruct Hdel as [->| ->]; [apply not_elem_of_nil|].
  by rewrite elem_of_elements.
Qed.

(** After a run the store holds exactly the identifiers of the batch. *)
Lemma run_dom : dom (persist_directory db) = list_to_set ids.
Proof.
  destruct run_cases
    as (deleted & added & _ & Hadd & Hdel & Hadded & _ & _ & Hcol & Hdir).
  rewrite Hdir.
  pose proof (ids_of_length _ _ Hnew) as Hlen.
  apply set_eq. intros i. rewrite elem_of_dom, elem_of_list_to_set.
  destruct (decide (i ∈ new_ids)) as [Hin|Hnot].
  - pose proof Hin as [Hi _]%(unseen_ids chroma _ _ _ _ Hids Hnew).
    split; [done|]. intros _. apply elem_of_dom.
    rewrite Hcol, Hadded.
    + rewrite dom_foldl_insert by done. apply elem_of_union_r.
      by apply elem_of_list_to_set.
    + intros Hnil. rewrite Hnil in Hnew. injection Hnew as <-.
      by apply elem_of_nil in Hin.
  - destruct (decide (i ∈ dom chroma ∖ list_to_set ids)) as [Hobs|Hkeep].
    + apply elem_of_difference in Hobs as [Hex Hni].
      rewrite elem_of_list_to_set in Hni. split; [|done].
      rewrite Hcol, Hdel.
      * rewrite lookup_foldl_insert_notin.
        -- rewrite lookup_foldr_delete, decide_True.
           ++ by intros ?%is_Some_None.
           ++ apply elem_of_elements, elem_of_difference.
              by rewrite elem_of_list_to_set.
        -- destruct Hadd as [->| ->]; [apply not_elem_of_nil|done].
      * intros Hempty. apply (not_elem_of_empty (C:=gset string) i).
        rewrite <- Hempty. apply elem_of_difference.
        by rewrite elem_of_list_to_set.
    + destruct (run_frame i Hkeep Hnot) as [-> _].
      rewrite <- elem_of_dom.
      rewrite elem_of_difference, elem_of_list_to_set in Hkeep.
      rewrite (unseen_ids chroma _ _ _ i Hids Hnew) in Hnot.
      destruct (decide (i ∈ dom chroma)), (decide (i ∈ ids)); tauto.
Qed.

End run.

(** Every chunk of a batch whose identifiers are all in the store is
    seen. *)
Lemma unseen_nil_subseteq chunks ids (existing : gset string) :
  ids_of chunks = Return ids → (∀ i, i ∈ ids → i ∈ existing) →
  unseen existing chunks = [].
Proof.
  unfold unseen. revert ids. induction chunks as [|c chunks IH]; intros ids.
  - done.
  - intros (j & ids' & Hj & Hids' & ->)%ids_of_cons Hsub.
    rewrite filter_cons, decide_False.
    + apply (IH ids' Hids'). intros i Hi. apply Hsub. by right.
    + intros Hnot. apply Hnot. exists j. split; [done|]. apply Hsub. by left.
Qed.

Lemma unseen_nil chunks ids :
  ids_of chunks = Return ids → unseen (list_to_set ids) chunks = [].
Proof.
  intros Hids. apply (unseen_nil_subseteq _ _ _ Hids).
  intros i. by rewrite elem_of_list_to_set.
Qed.

(** What is in the directory once the obsolete identifiers are deleted:
    the documents the store held under an identifier of the batch. *)
Lemma after_delete_persist_directory chroma chunks ids :
  ids_of chunks = Return ids →
  persist_directory (after_delete chroma ids)
  = filter (λ kv, Some kv.1 ∈ identifiers chunks) chroma.
Proof.
  intros Hids. apply map_eq. intros i. apply option_eq. intros d.
  rewrite map_lookup_filter_Some. cbn [fst].
  rewrite (identifiers_ids_of _ _ _ Hids).
  unfold after_delete.
  destruct (decide (dom chroma ∖ list_to_set ids ≠ ∅)) as [Hobs|Hobs].
  - cbn [persist_directory Chroma_persist Chroma_delete Chroma_init collection].
    rewrite lookup_foldr_delete. case_decide as Hi.
    + apply elem_of_elements, elem_of_difference in Hi as [_ Hi].
      rewrite elem_of_list_to_set in Hi. split; [done|tauto].
    + split; [|tauto]. intros Hd. split; [done|].
      destruct (decide (i ∈ ids)) as [|Hni]; [done|]. destruct Hi.
      apply elem_of_elements, elem_of_difference.
      rewrite elem_of_list_to_set. split; [|done]. apply elem_of_dom. by eexists.
  - cbn [persist_directory Chroma_init]. split; [|tauto].
    intros Hd. split; [done|].
    destruct (decide (i ∈ ids)) as [|Hni]; [done|]. destruct Hobs.
    intros Hempty. apply (not_elem_of_empty (C:=gset string) i).
    rewrite <- Hempty. apply elem_of_difference.
    rewrite elem_of_list_to_set. split; [|done]. apply elem_of_dom. by eexists.
Qed.

Lemma after_delete_persisted chroma ids :
  persist_directory (after_delete chroma ids) = collection (after_delete chroma ids).
Proof. unfold after_delete. by case_decide. Qed.

(** * The claims *)

(** The digest is SHA-1: the test vectors of FIPS 180. *)
Example sha1_empty :
  hashlib.hexdigest hashlib.sha1 = "da39a3ee5e6b4b0d3255bfef95601890afd80709".
Proof. vm_compute. reflexivity. Qed.

Example sha1_abc :
  hashlib.hexdigest (hashlib.update hashlib.sha1 (bytes "abc"))
  = "a9993e364706816aba3e25717850c26c9cd0d89d".
Proof. vm_compute. reflexivity. Qed.

Example sha1_two_blocks :
  hashlib.hexdigest
    (hashlib.update hashlib.sha1
       (bytes "abcdbcdecdefdefgefghfghighijhijkijkljklmklmnlmnomnopnopq"))
  = "84983e441c3bd26ebaae4aa1f95129e5e54670f1".
Proof. vm_compute. reflexivity. Qed.

Example calculate_chunk_ids_sample :
  identifiers (calculate_chunk_ids sample_fs sample_batch).1
  = [ Some "doc.pdf:1:a9993e364706816aba3e25717850c26c9cd0d89d:0";
      Some "doc.pdf:1:a9993e364706816aba3e25717850c26c9cd0d89d:1";
      Some "doc.pdf:2:a9993e364706816aba3e25717850c26c9cd0d89d:0";
      Some "report.md:None:aaf4c61ddcc5e8a2dabede0f3b482cd9aea9434d:0";
      Some "report.md:None:aaf4c61ddcc5e8a2dabede0f3b482cd9aea9434d:1" ].
Proof. vm_compute. reflexivity. Qed.

(** C3. Identity assignment is the one ordered pass of the specification:
    when every file of the batch can be fingerprinted, the call returns and
    the identifiers the chunks carry afterwards are, in order, those
    [spec_identifiers] gives out for their page keys
    [source:page:fingerprint] -- the running index is one more than the
    previous one when the page key equals the previous chunk's, 0
    otherwise, and the identifier is [page_key:index].  Nothing else of a
    chunk changes. *)
Theorem calculate_chunk_ids_spec fs chunks keys :
  page_keys fs chunks = Return keys →
  ∃ chunks',
    calculate_chunk_ids fs chunks = (chunks', None)
    ∧ identifiers chunks' = Some <$> spec_identifiers keys
    ∧ length chunks' = length chunks
    ∧ chunks' = zip_with set_id chunks (spec_identifiers keys).
Proof.
  intros Hks. rewrite spec_identifiers_loop_ids.
  assert (length (loop_ids None 0 keys) = length chunks) as Hlen.
  { rewrite loop_ids_length. by eapply page_keys_length. }
  eexists. split; [by apply for_chunk_returns|]. split_and!.
  - by apply identifiers_zip_with_set_id.
  - rewrite length_zip_with. lia.
  - done.
Qed.

Lemma calculate_chunk_ids_spec_witness :
  let keys :=
    [ "doc.pdf:1:a9993e364706816aba3e25717850c26c9cd0d89d";
      "doc.pdf:1:a9993e364706816aba3e25717850c26c9cd0d89d";
      "doc.pdf:2:a9993e364706816aba3e25717850c26c9cd0d89d";
      "report.md:None:aaf4c61ddcc5e8a2dabede0f3b482cd9aea9434d";
      "report.md:None:aaf4c61ddcc5e8a2dabede0f3b482cd9aea9434d" ] in
  ∃ chunks',
    calculate_chunk_ids sample_fs sample_batch = (chunks', None)
    ∧ identifiers chunks' = Some <$> spec_identifiers keys
    ∧ length chunks' = length sample_batch
    ∧ chunks' = zip_with set_id sample_batch (spec_identifiers keys).
Proof.
  intros keys. apply (calculate_chunk_ids_spec sample_fs sample_batch keys).
  vm_compute. reflexivity.
Defined.

(** C1, as stated, fails: when page 1 of a file comes back after page 2,
    the running index starts again from 0 and the first and the third
    chunk get the same identifier. *)
Lemma calculate_chunk_ids_duplicate :
  (calculate_chunk_ids sample_fs interleaved_batch).2 = None
  ∧ identifiers (calculate_chunk_ids sample_fs interleaved_batch).1
    = [ Some "doc.pdf:1:a9993e364706816aba3e25717850c26c9cd0d89d:0";
        Some "doc.pdf:2:a9993e364706816aba3e25717850c26c9cd0d89d:0";
        Some "doc.pdf:1:a9993e364706816aba3e25717850c26c9cd0d89d:0" ]
  ∧ ¬ NoDup (identifiers (calculate_chunk_ids sample_fs interleaved_batch).1).
Proof.
  assert (identifiers (calculate_chunk_ids sample_fs interleaved_batch).1
    = [ Some "doc.pdf:1:a9993e364706816aba3e25717850c26c9cd0d89d:0";
        Some "doc.pdf:2:a9993e364706816aba3e25717850c26c9cd0d89d:0";
        Some "doc.pdf:1:a9993e364706816aba3e25717850c26c9cd0d89d:0" ]) as Hids
    by (vm_compute; reflexivity).
  split; [vm_compute; reflexivity|]. split; [exact Hids|].
  rewrite Hids. intros Hnd. apply NoDup_cons in Hnd as [Hnot _].
  apply Hnot. right. left.
Qed.

(** C1, amended. When the chunks that share a [(source_path, unit_index)]
    pair are contiguous in the batch, no two chunks of the batch receive
    the same identifier. *)
Theorem calculate_chunk_ids_distinct fs chunks chunks' :
  calculate_chunk_ids fs chunks = (chunks', None) →
  contiguous (unit_of <$> chunks) →
  NoDup (identifiers chunks').
Proof.
  intros (keys & Hks & ->)%calculate_chunk_ids_None Hc.
  rewrite identifiers_zip_with_set_id.
  - apply (NoDup_fmap_2 Some), NoDup_loop_ids.
    by eapply contiguous_page_keys.
  - rewrite loop_ids_length. by eapply page_keys_length.
Qed.

Lemma calculate_chunk_ids_distinct_witness :
  NoDup (identifiers (calculate_chunk_ids sample_fs sample_batch).1).
Proof.
  apply (calculate_chunk_ids_distinct sample_fs sample_batch).
  - vm_compute. reflexivity.
  - apply (bool_decide_unpack _). vm_compute. reflexivity.
Defined.




(** C8, as stated, fails: the two chunks of [report.md], which have no
    page metadata, get identifiers with [None] where the claim has
    [none]. *)
Lemma report_ids_not_lowercase_none :
  identifiers (calculate_chunk_ids sample_fs report_batch).1
  = [ Some "report.md:None:aaf4c61ddcc5e8a2dabede0f3b482cd9aea9434d:0";
      Some "report.md:None:aaf4c61ddcc5e8a2dabede0f3b482cd9aea9434d:1" ]
  ∧ identifiers (calculate_chunk_ids sample_fs report_batch).1
    ≠ [ Some "report.md:none:aaf4c61ddcc5e8a2dabede0f3b482cd9aea9434d:0";
        Some "report.md:none:aaf4c61ddcc5e8a2dabede0f3b482cd9aea9434d:1" ]
  ∧ hashlib.hexdigest (bytes "hello")
    = "aaf4c61ddcc5e8a2dabede0f3b482cd9aea9434d".
Proof.
  assert (identifiers (calculate_chunk_ids sample_fs report_batch).1
    = [ Some "report.md:None:aaf4c61ddcc5e8a2dabede0f3b482cd9aea9434d:0";
        Some "report.md:None:aaf4c61ddcc5e8a2dabede0f3b482cd9aea9434d:1" ])
    as Hids by (vm_compute; reflexivity).
  split; [exact Hids|]. split; [|vm_compute; reflexivity].
  rewrite Hids. intros [=].
Qed.

(** C8, amended. For a source with no page metadata the unit index is
    rendered [None]: after identity assignment the identifiers of two
    consecutive chunks of [report.md] without page metadata are
    [report.md:None:<hash>:0] and [report.md:None:<hash>:1], [<hash>] being
    the digest of the file; the call returns and nothing else of the
    chunks changes. *)
Theorem report_md_ids fs content text1 text2 id1 id2 :
  fs !! "report.md" = Some (Regular content) →
  let chunk1 := {| page_content := text1;
                   metadata := {| source := Some "report.md"; page := None;
                                  id := id1 |} |} in
  let chunk2 := {| page_content := text2;
                   metadata := {| source := Some "report.md"; page := None;
                                  id := id2 |} |} in
  identifiers (calculate_chunk_ids fs [chunk1; chunk2]).1
  = [ Some ("report.md:None:" +:+ hashlib.hexdigest content +:+ ":0");
      Some ("report.md:None:" +:+ hashlib.hexdigest content +:+ ":1") ]
  ∧ calculate_chunk_ids fs [chunk1; chunk2]
    = ([ set_id chunk1 ("report.md:None:" +:+ hashlib.hexdigest content +:+ ":0");
         set_id chunk2 ("report.md:None:" +:+ hashlib.hexdigest content +:+ ":1") ],
       None).
Proof.
  intros Hfs chunk1 chunk2.
  assert (calculate_chunk_ids fs [chunk1; chunk2]
    = ([ set_id chunk1 ("report.md:None:" +:+ hashlib.hexdigest content +:+ ":0");
         set_id chunk2 ("report.md:None:" +:+ hashlib.hexdigest content +:+ ":1") ],
       None)) as Hcall.
  { unfold calculate_chunk_ids. cbn [for_chunk].
    subst chunk1 chunk2. cbn [metadata source page].
    rewrite (calculate_sha1_regular _ _ _ Hfs).
    generalize (hashlib.hexdigest content). intros h. cbv zeta.
    rewrite decide_False by done. rewrite decide_True by done.
    reflexivity. }
  split; [|exact Hcall]. rewrite Hcall. reflexivity.
Qed.

Lemma report_md_ids_witness :
  identifiers (calculate_chunk_ids sample_fs report_batch).1
  = [ Some ("report.md:None:" +:+ hashlib.hexdigest (bytes "hello") +:+ ":0");
      Some ("report.md:None:" +:+ hashlib.hexdigest (bytes "hello") +:+ ":1") ]
  ∧ calculate_chunk_ids sample_fs report_batch
    = ([ set_id (chunk_of "d" (Some "report.md") None)
           ("report.md:None:" +:+ hashlib.hexdigest (bytes "hello") +:+ ":0");
         set_id (chunk_of "e" (Some "report.md") None)
           ("report.md:None:" +:+ hashlib.hexdigest (bytes "hello") +:+ ":1") ],
       None).
Proof.
  apply (report_md_ids sample_fs (bytes "hello") "d" "e" None None).
  vm_compute. reflexivity.
Defined.




Example missing_source_identifier :
  identifiers (calculate_chunk_ids sample_fs missing_batch).1
  = [Some "gone.pdf:1:None:0"].
Proof. vm_compute. reflexivity. Qed.

(** C4. On a batch that was assigned identifiers, [add_to_chroma] works
    from this diff against the identifiers the store holds: the additions
    are exactly the chunks of the batch whose identifier is not in the
    store, in batch order, and the removals are exactly the stored
    identifiers that no chunk of the batch carries. *)
Theorem add_to_chroma_diff fs chroma chunks chunks_with_ids :
  calculate_chunk_ids fs chunks = (chunks_with_ids, None) →
  ∃ d,
    compute_diff (Chroma_init chroma) chunks_with_ids = Return d
    ∧ add_to_chroma_call fs chroma chunks = apply_diff (Chroma_init chroma) d
    ∧ existing_ids d = dom chroma
    ∧ new_chunks d
      = filter (λ chunk, ¬ identifier_in (dom chroma) chunk) chunks_with_ids
    ∧ (∀ chunk, chunk ∈ new_chunks d
         ↔ chunk ∈ chunks_with_ids ∧ ¬ identifier_in (dom chroma) chunk)
    ∧ (∀ i, i ∈ current_ids d ↔ Some i ∈ identifiers chunks_with_ids)
    ∧ (∀ i, i ∈ obsolete_ids d
         ↔ i ∈ dom chroma ∧ Some i ∉ identifiers chunks_with_ids).
Proof.
  intros Hcall.
  destruct (calculate_chunk_ids_ids_of _ _ _ Hcall) as (ids & Hids & _).
  eexists. split; [by apply compute_diff_Return|].
  cbn [existing_ids new_chunks current_ids obsolete_ids].
  split_and!; try done.
  - unfold add_to_chroma_call. rewrite Hcall.
    by rewrite (compute_diff_Return _ _ _ Hids).
  - intros chunk. unfold unseen. rewrite list_elem_of_filter. tauto.
  - intros i. by rewrite elem_of_list_to_set, (identifiers_ids_of _ _ _ Hids).
  - intros i. by rewrite elem_of_difference, elem_of_list_to_set,
      (identifiers_ids_of _ _ _ Hids).
Qed.

Lemma add_to_chroma_diff_witness :
  ∃ d,
    compute_diff (Chroma_init sample_chroma)
      (calculate_chunk_ids sample_fs sample_batch).1 = Return d
    ∧ add_to_chroma_call sample_fs sample_chroma sample_batch
      = apply_diff (Chroma_init sample_chroma) d
    ∧ existing_ids d = dom sample_chroma
    ∧ new_chunks d
      = filter (λ chunk, ¬ identifier_in (dom sample_chroma) chunk)
          (calculate_chunk_ids sample_fs sample_batch).1
    ∧ (∀ chunk, chunk ∈ new_chunks d
         ↔ chunk ∈ (calculate_chunk_ids sample_fs sample_batch).1
           ∧ ¬ identifier_in (dom sample_chroma) chunk)
    ∧ (∀ i, i ∈ current_ids d
         ↔ Some i ∈ identifiers (calculate_chunk_ids sample_fs sample_batch).1)
    ∧ (∀ i, i ∈ obsolete_ids d
         ↔ i ∈ dom sample_chroma
           ∧ Some i ∉ identifiers (calculate_chunk_ids sample_fs sample_batch).1).
Proof.
  apply (add_to_chroma_diff sample_fs sample_chroma sample_batch).
  vm_compute. reflexivity.
Defined.

Example add_to_chroma_sample_diff :
  ∃ d,
    compute_diff (Chroma_init sample_chroma)
      (calculate_chunk_ids sample_fs sample_batch).1 = Return d
    ∧ elements (obsolete_ids d)
      = ["old.md:None:da39a3ee5e6b4b0d3255bfef95601890afd80709:0"]
    ∧ identifiers (new_chunks d)
      = [ Some "doc.pdf:1:a9993e364706816aba3e25717850c26c9cd0d89d:0";
          Some "doc.pdf:1:a9993e364706816aba3e25717850c26c9cd0d89d:1";
          Some "doc.pdf:2:a9993e364706816aba3e25717850c26c9cd0d89d:0";
          Some "report.md:None:aaf4c61ddcc5e8a2dabede0f3b482cd9aea9434d:0";
          Some "report.md:None:aaf4c61ddcc5e8a2dabede0f3b482cd9aea9434d:1" ].
Proof. eexists. split_and!; vm_compute; reflexivity. Qed.

(** C6, as stated, fails: the three chunks of the interleaved batch are
    new to an empty store, yet they are not added and nothing is
    persisted, because two of them carry one identifier and the store
    rejects the addition; the run ends with the store's error. *)
Lemma interleaved_addition_rejected :
  ∃ d db,
    compute_diff (Chroma_init ∅)
      (calculate_chunk_ids sample_fs interleaved_batch).1 = Return d
    ∧ length (new_chunks d) = 3
    ∧ identifiers (new_chunks d)
      = [ Some "doc.pdf:1:a9993e364706816aba3e25717850c26c9cd0d89d:0";
          Some "doc.pdf:2:a9993e364706816aba3e25717850c26c9cd0d89d:0";
          Some "doc.pdf:1:a9993e364706816aba3e25717850c26c9cd0d89d:0" ]
    ∧ add_to_chroma_call sample_fs ∅ interleaved_batch
      = (db, Some DuplicateIDError)
    ∧ add_to_chroma sample_fs ∅ interleaved_batch = Raise DuplicateIDError
    ∧ calls db
      = [ AddDocuments (new_chunks d)
            [ "doc.pdf:1:a9993e364706816aba3e25717850c26c9cd0d89d:0";
              "doc.pdf:2:a9993e364706816aba3e25717850c26c9cd0d89d:0";
              "doc.pdf:1:a9993e364706816aba3e25717850c26c9cd0d89d:0" ] ]
    ∧ collection db = ∅
    ∧ persist_directory db = ∅.
Proof. eexists _, _. split_and!; vm_compute; reflexivity. Qed.

(** C6, amended. A run that was given identifiers for its batch makes
    these calls on the store and no other, in this order: when some stored
    identifier is carried by no chunk of the batch, [delete] of these
    identifiers then [persist]; after that, when some chunk of the batch
    has an identifier the store does not hold, [add_documents] of these
    chunks, each under the identifier it carries, then, if the store took
    them, [persist].  A step whose set is empty is left out, without
    error.  The store takes the new chunks when their identifiers are all
    different, and the run returns; when two of them carry one identifier
    the store rejects them with [DuplicateIDError]: the run ends there
    with that error, nothing was added, and the deletions stay written. *)
Theorem add_to_chroma_calls fs chroma chunks chunks_with_ids :
  calculate_chunk_ids fs chunks = (chunks_with_ids, None) →
  ∃ d new_chunk_ids db raised,
    compute_diff (Chroma_init chroma) chunks_with_ids = Return d
    ∧ (∀ i, i ∈ obsolete_ids d
         ↔ i ∈ dom chroma ∧ Some i ∉ identifiers chunks_with_ids)
    ∧ new_chunks d
      = filter (λ chunk, ¬ identifier_in (dom chroma) chunk) chunks_with_ids
    ∧ identifiers (new_chunks d) = Some <$> new_chunk_ids
    ∧ add_to_chroma_call fs chroma chunks = (db, raised)
    ∧ calls db
      = (if decide (obsolete_ids d = ∅) then []
         else [Delete (elements (obsolete_ids d)); Persist])
        ++ (if decide (new_chunks d = []) then []
            else AddDocuments (new_chunks d) new_chunk_ids
                 :: (if decide (NoDup new_chunk_ids) then [Persist] else []))
    ∧ raised
      = (if decide (NoDup new_chunk_ids) then None else Some DuplicateIDError)
    ∧ add_to_chroma fs chroma chunks
      = (if decide (NoDup new_chunk_ids) then Return db
         else Raise DuplicateIDError)
    ∧ persist_directory db = collection db
    ∧ (NoDup new_chunk_ids →
       ∀ i, i ∈ dom (collection db) ↔ Some i ∈ identifiers chunks_with_ids)
    ∧ (¬ NoDup new_chunk_ids →
       collection db
       = filter (λ kv, Some kv.1 ∈ identifiers chunks_with_ids) chroma).
Proof.
  intros Hcall.
  destruct (calculate_chunk_ids_ids_of _ _ _ Hcall) as (ids & Hids & _).
  destruct (ids_of_filter (λ chunk, ¬ identifier_in (dom chroma) chunk)
              _ _ Hids) as [new_ids Hnew].
  assert (unseen (dom chroma) chunks_with_ids = [] → NoDup new_ids) as Hnil.
  { intros Hnil. unfold unseen in Hnil. rewrite Hnil in Hnew.
    injection Hnew as <-. constructor. }
  assert (calls (after_delete chroma ids)
          = if decide (dom chroma ∖ list_to_set ids = ∅) then []
            else [Delete (elements (dom chroma ∖ list_to_set ids)); Persist])
    as Hdel.
  { unfold after_delete.
    destruct (decide (dom chroma ∖ list_to_set ids = ∅)) as [Hobs|Hobs].
    - by rewrite (decide_False (P:=_ ≠ ∅)) by (intros Hn; by apply Hn).
    - by rewrite (decide_True (P:=_ ≠ ∅)) by done. }
  pose proof (add_to_chroma_call_run _ _ _ _ _ _ Hcall Hids Hnew) as Hrun.
  destruct (add_to_chroma_call fs chroma chunks) as [db raised] eqn:Hres.
  exists {| existing_ids := dom chroma;
            new_chunks := unseen (dom chroma) chunks_with_ids;
            current_ids := list_to_set ids;
            obsolete_ids := dom chroma ∖ list_to_set ids |}, new_ids, db, raised.
  split; [by apply compute_diff_Return|]. cbn [new_chunks obsolete_ids].
  split.
  { intros i. by rewrite elem_of_difference, elem_of_list_to_set,
      (identifiers_ids_of _ _ _ Hids). }
  split; [done|]. split; [by apply ids_of_identifiers|].
  split; [done|].
  assert (NoDup new_ids →
          add_to_chroma fs chroma chunks = Return db
          ∧ raised = None
          ∧ persist_directory db = collection db
          ∧ ∀ i, i ∈ dom (collection db) ↔ Some i ∈ identifiers chunks_with_ids)
    as Hdone.
  { intros Hnodup.
    assert (add_to_chroma fs chroma chunks = Return db) as Hret.
    { unfold add_to_chroma. rewrite Hres.
      rewrite (decide_True (P:=NoDup new_ids)) in Hrun by done.
      by destruct (decide (length (unseen (dom chroma) chunks_with_ids) ≠ 0));
        injection Hrun as -> ->. }
    destruct (run_cases _ _ _ _ _ _ _ Hcall Hids Hnew Hret)
      as (deleted & added & _ & _ & _ & _ & _ & _ & _ & Hdir).
    split_and!; [done| |done|].
    { unfold add_to_chroma in Hret. rewrite Hres in Hret. by destruct raised. }
    intros i.
    rewrite <- Hdir, (run_dom _ _ _ _ _ _ _ Hcall Hids Hnew Hret).
    by rewrite elem_of_list_to_set, (identifiers_ids_of _ _ _ Hids). }
  pose proof (after_delete_persisted chroma ids) as Hsaved.
  destruct (decide (NoDup new_ids)) as [Hnodup|Hdup].
  - destruct (Hdone Hnodup) as (Hret & Hraised & Hdir & Hdom).
    split_and!; [|done..].
    destruct (decide (unseen (dom chroma) chunks_with_ids = [])) as [Hemp|Hne].
    + rewrite (decide_False (P:=length _ ≠ 0)) in Hrun
        by (rewrite Hemp; intros Hn; by apply Hn).
      injection Hrun as -> ->. by rewrite Hdel, app_nil_r.
    + rewrite (decide_True (P:=length _ ≠ 0)) in Hrun
        by (by intros ?%length_zero_iff_nil).
      injection Hrun as -> ->.
      cbn [calls Chroma_persist Chroma_accepted].
      by rewrite Hdel, <- app_assoc.
  - rewrite (add_to_chroma_call_duplicate _ _ _ _ _ _ Hcall Hids Hnew Hdup) in Hres.
    injection Hres as <- <-. unfold add_to_chroma.
    rewrite (add_to_chroma_call_duplicate _ _ _ _ _ _ Hcall Hids Hnew Hdup).
    rewrite (decide_False (P:=unseen _ _ = [])) by auto.
    cbn [calls Chroma_rejected persist_directory collection].
    rewrite Hdel. split_and!; [done..|].
    intros _. by rewrite <- Hsaved, (after_delete_persist_directory _ _ _ Hids).
Qed.

Lemma add_to_chroma_calls_witness :
  ∃ d new_chunk_ids db raised,
    compute_diff (Chroma_init sample_chroma)
      (calculate_chunk_ids sample_fs sample_batch).1 = Return d
    ∧ (∀ i, i ∈ obsolete_ids d
         ↔ i ∈ dom sample_chroma
           ∧ Some i ∉ identifiers (calculate_chunk_ids sample_fs sample_batch).1)
    ∧ new_chunks d
      = filter (λ chunk, ¬ identifier_in (dom sample_chroma) chunk)
          (calculate_chunk_ids sample_fs sample_batch).1
    ∧ identifiers (new_chunks d) = Some <$> new_chunk_ids
    ∧ add_to_chroma_call sample_fs sample_chroma sample_batch = (db, raised)
    ∧ calls db
      = (if decide (obsolete_ids d = ∅) then []
         else [Delete (elements (obsolete_ids d)); Persist])
        ++ (if decide (new_chunks d = []) then []
            else AddDocuments (new_chunks d) new_chunk_ids
                 :: (if decide (NoDup new_chunk_ids) then [Persist] else []))
    ∧ raised
      = (if decide (NoDup new_chunk_ids) then None else Some DuplicateIDError)
    ∧ add_to_chroma sample_fs sample_chroma sample_batch
      = (if decide (NoDup new_chunk_ids) then Return db
         else Raise DuplicateIDError)
    ∧ persist_directory db = collection db
    ∧ (NoDup new_chunk_ids →
       ∀ i, i ∈ dom (collection db)
            ↔ Some i ∈ identifiers (calculate_chunk_ids sample_fs sample_batch).1)
    ∧ (¬ NoDup new_chunk_ids →
       collection db
       = filter (λ kv, Some kv.1
                         ∈ identifiers (calculate_chunk_ids sample_fs sample_batch).1)
           sample_chroma).
Proof.
  apply (add_to_chroma_calls sample_fs sample_chroma sample_batch).
  vm_compute. reflexivity.
Defined.

Example add_to_chroma_sample_calls :
  add_to_chroma sample_fs sample_chroma sample_batch = Return sample_run
  ∧ deleted_ids (calls sample_run)
    = ["old.md:None:da39a3ee5e6b4b0d3255bfef95601890afd80709:0"]
  ∧ added_ids (calls sample_run)
    = [ "doc.pdf:1:a9993e364706816aba3e25717850c26c9cd0d89d:0";
        "doc.pdf:1:a9993e364706816aba3e25717850c26c9cd0d89d:1";
        "doc.pdf:2:a9993e364706816aba3e25717850c26c9cd0d89d:0";
        "report.md:None:aaf4c61ddcc5e8a2dabede0f3b482cd9aea9434d:0";
        "report.md:None:aaf4c61ddcc5e8a2dabede0f3b482cd9aea9434d:1" ].
Proof. split_and!; vm_compute; reflexivity. Qed.

(** C5. After a run that completed, the store holds exactly the batch's
    identifiers, and a second run on the same batch and the same files
    finds nothing to add and nothing to remove: it makes no call on the
    store and leaves it as the first run left it. *)
Theorem add_to_chroma_idempotent fs chroma chunks db :
  add_to_chroma fs chroma chunks = Return db →
  ∃ chunks_with_ids ids d,
    calculate_chunk_ids fs chunks = (chunks_with_ids, None)
    ∧ ids_of chunks_with_ids = Return ids
    ∧ dom (persist_directory db) = list_to_set ids
    ∧ compute_diff (Chroma_init (persist_directory db)) chunks_with_ids = Return d
    ∧ new_chunks d = []
    ∧ obsolete_ids d = ∅
    ∧ add_to_chroma fs (persist_directory db) chunks
      = Return (Chroma_init (persist_directory db)).
Proof.
  intros Hrun.
  destruct (add_to_chroma_Return _ _ _ _ Hrun)
    as (chunks_with_ids & ids & new_ids & Hcall & Hids & Hnew & _).
  pose proof (run_dom _ _ _ _ _ _ _ Hcall Hids Hnew Hrun) as Hdom.
  eexists chunks_with_ids, ids, _. split_and!; [done..| | | |].
  - by apply compute_diff_Return.
  - cbn [new_chunks]. rewrite Hdom. by apply unseen_nil.
  - cbn [obsolete_ids]. rewrite Hdom. apply difference_diag_L.
  - rewrite (add_to_chroma_run _ _ _ _ _ [] Hcall Hids).
    + unfold after_delete.
      rewrite Hdom, difference_diag_L, (unseen_nil _ _ Hids).
      rewrite (decide_False (P:=_ ≠ ∅)) by (intros Hn; by apply Hn).
      rewrite (decide_False (P:=length _ ≠ 0)) by (intros Hn; by apply Hn).
      done.
    + rewrite Hdom, (unseen_nil _ _ Hids). done.
    + constructor.
Qed.

Lemma add_to_chroma_idempotent_witness :
  ∃ chunks_with_ids ids d,
    calculate_chunk_ids sample_fs sample_batch = (chunks_with_ids, None)
    ∧ ids_of chunks_with_ids = Return ids
    ∧ dom (persist_directory sample_run) = list_to_set ids
    ∧ compute_diff (Chroma_init (persist_directory sample_run)) chunks_with_ids
      = Return d
    ∧ new_chunks d = []
    ∧ obsolete_ids d = ∅
    ∧ add_to_chroma sample_fs (persist_directory sample_run) sample_batch
      = Return (Chroma_init (persist_directory sample_run)).
Proof.
  apply (add_to_chroma_idempotent sample_fs sample_chroma sample_batch sample_run).
  vm_compute. reflexivity.
Defined.





(** * Further properties of the code *)

(** ** [calculate_sha1] *)

(** X1. For a file that can be read, the fingerprint is the digest of its
    whole content, as one [update] with all the bytes would give it: the
    64 KB reads lose and reorder nothing. *)
Theorem calculate_sha1_digest_of_content fs path content :
  fs !! path = Some (Regular content) →
  calculate_sha1 fs (Some path)
  = Return (Some (hashlib.hexdigest (hashlib.update hashlib.sha1 content))).
Proof.
  intros Hfs. unfold calculate_sha1, open. rewrite Hfs.
  by rewrite read_loop_all.
Qed.

Lemma calculate_sha1_digest_of_content_witness :
  calculate_sha1 sample_fs (Some "report.md")
  = Return (Some (hashlib.hexdigest
                    (hashlib.update hashlib.sha1 (bytes "hello")))).
Proof.
  apply (calculate_sha1_digest_of_content sample_fs "report.md" (bytes "hello")).
  vm_compute. reflexivity.
Defined.

Lemma length_app_s s t : String.length (s +:+ t) = String.length s + String.length t.
Proof. induction s as [|c s IH]; [done|]. rewrite app_cons_s. simpl. by rewrite IH. Qed.








Example calculate_sha1_sample_paths :
  calculate_sha1 sample_fs (Some "gone.pdf") = Return None
  ∧ calculate_sha1 sample_fs (Some "nowhere/gone.pdf") = Return None
  ∧ calculate_sha1 sample_fs (Some "report.md/x")
    = Raise (NotADirectoryError "report.md/x")
  ∧ calculate_sha1 sample_fs (Some (String "000" "gone.pdf")) = Raise ValueError
  ∧ calculate_sha1 sample_fs (Some "") = Return None
  ∧ calculate_sha1 sample_fs None = Raise TypeError.
Proof. split_and!; vm_compute; reflexivity. Qed.

(** X3. What [calculate_sha1] raises is what [open] raised, and it is
    never [FileNotFoundError]: it is [TypeError] when there is no path at
    all, and otherwise [ValueError] (a NUL in the path) or, with the path
    in it, the error for a directory, for a path through a file that is
    not a directory, for a file that may not be read, or for a name that
    is too long. *)
Theorem calculate_sha1_raises fs filepath e :
  calculate_sha1 fs filepath = Raise e →
  open fs filepath = Raise e
  ∧ (∀ filename, e ≠ FileNotFoundError filename)
  ∧ (filepath = None ∧ e = TypeError
     ∨ ∃ path, filepath = Some path
         ∧ (e = ValueError ∨ e = IsADirectoryError path
            ∨ e = NotADirectoryError path ∨ e = PermissionError path
            ∨ e = OSError path)).
Proof.
  intros [Hopen Hne]%calculate_sha1_Raise. split_and!; [done..|].
  destruct (open_Raise _ _ _ Hopen) as [?|(path & -> & He)]; [by left|].
  right. exists path. split; [done|].
  destruct He as [He|[He|[He|[He|[He|He]]]]]; auto 10.
  by destruct (Hne path).
Qed.

Lemma calculate_sha1_raises_witness :
  open sample_fs (Some "report.md/x") = Raise (NotADirectoryError "report.md/x")
  ∧ (∀ filename, NotADirectoryError "report.md/x" ≠ FileNotFoundError filename)
  ∧ (Some "report.md/x" = None ∧ NotADirectoryError "report.md/x" = TypeError
     ∨ ∃ path, Some "report.md/x" = Some path
         ∧ (NotADirectoryError "report.md/x" = ValueError
            ∨ NotADirectoryError "report.md/x" = IsADirectoryError path
            ∨ NotADirectoryError "report.md/x" = NotADirectoryError path
            ∨ NotADirectoryError "report.md/x" = PermissionError path
            ∨ NotADirectoryError "report.md/x" = OSError path)).
Proof.
  apply (calculate_sha1_raises sample_fs (Some "report.md/x")
           (NotADirectoryError "report.md/x")).
  vm_compute. reflexivity.
Defined.

(** ** [calculate_chunk_ids] *)

Lemma for_chunk_frame fs last index chunks :
  Forall2 (λ chunk' chunk,
             page_content chunk' = page_content chunk
             ∧ source (metadata chunk') = source (metadata chunk)
             ∧ page (metadata chunk') = page (metadata chunk))
    (for_chunk fs last index chunks).1 chunks.
Proof.
  revert last index. induction chunks as [|chunk chunks IH]; intros last index.
  - constructor.
  - cbn [for_chunk].
    destruct (calculate_sha1 fs (source (metadata chunk))) as [h|e].
    + cbv zeta.
      match goal with |- context [for_chunk fs ?l ?n chunks] =>
        specialize (IH l n); destruct (for_chunk fs l n chunks) as [rest' r]
      end.
      simpl. constructor; [done|exact IH].
    + simpl. apply Forall2_same_length_lookup_2; [done|].
      intros i x y Hx Hy. by simplify_eq.
Qed.

(** X4. Whether it returns or raises, [calculate_chunk_ids] leaves the batch
    as long as it was and in the same order, and touches nothing of a chunk
    but its identifier: text, source and page are as before. *)
Theorem calculate_chunk_ids_frame fs chunks :
  length (calculate_chunk_ids fs chunks).1 = length chunks
  ∧ ∀ i chunk', (calculate_chunk_ids fs chunks).1 !! i = Some chunk' →
      ∃ chunk, chunks !! i = Some chunk
        ∧ page_content chunk' = page_content chunk
        ∧ source (metadata chunk') = source (metadata chunk)
        ∧ page (metadata chunk') = page (metadata chunk).
Proof.
  pose proof (for_chunk_frame fs None 0 chunks) as H.
  fold (calculate_chunk_ids fs chunks) in H. split.
  - by eapply Forall2_length.
  - intros i chunk' Hi.
    destruct (Forall2_lookup_l _ _ _ _ _ H Hi) as (chunk & Hchunk & Hsame).
    eauto.
Qed.

Lemma page_keys_Return_iff fs chunks :
  (∃ keys, page_keys fs chunks = Return keys)
  ↔ ∀ chunk, chunk ∈ chunks →
      ∃ h, calculate_sha1 fs (source (metadata chunk)) = Return h.
Proof.
  induction chunks as [|c chunks IH].
  - split; [by intros _ chunk ?%elem_of_nil|]. intros _. by exists [].
  - split.
    + intros [keys (h & k & keys' & Hh & _ & _ & Hks & _)%page_keys_cons].
      intros chunk [->|Hin]%elem_of_cons; [by eauto|].
      apply IH; by eauto.
    + intros Hall. destruct (Hall c) as [h Hh]; [by left|].
      destruct IH as [_ [keys Hks]].
      { intros chunk Hin. apply Hall. by right. }
      cbn [page_keys]. unfold page_key. rewrite Hh, Hks. by eexists.
Qed.

(** X5. [calculate_chunk_ids] returns exactly when the fingerprint of every
    chunk's source can be taken, and then every chunk of the batch carries
    an identifier. *)
Theorem calculate_chunk_ids_returns_iff fs chunks :
  ((calculate_chunk_ids fs chunks).2 = None
   ↔ ∀ chunk, chunk ∈ chunks →
       ∃ h, calculate_sha1 fs (source (metadata chunk)) = Return h)
  ∧ ((calculate_chunk_ids fs chunks).2 = None →
     ∀ chunk', chunk' ∈ (calculate_chunk_ids fs chunks).1 →
       is_Some (id (metadata chunk'))).
Proof.
  split; [split|].
  - intros Hret. apply page_keys_Return_iff.
    destruct (calculate_chunk_ids fs chunks) as [chunks' r] eqn:Hcall.
    simpl in Hret. subst r.
    apply calculate_chunk_ids_None in Hcall as (keys & Hks & _). eauto.
  - intros [keys Hks]%page_keys_Return_iff.
    unfold calculate_chunk_ids. by rewrite (for_chunk_returns _ _ _ _ _ Hks).
  - intros Hret chunk' Hin.
    destruct (calculate_chunk_ids fs chunks) as [chunks' r] eqn:Hcall.
    simpl in Hret, Hin. subst r.
    destruct (calculate_chunk_ids_ids_of _ _ _ Hcall) as (ids & Hids & _).
    clear Hcall. revert ids Hids.
    induction chunks' as [|c chunks' IH]; intros ids;
      [by apply elem_of_nil in Hin|].
    intros (j & ids' & Hj & Hids' & _)%ids_of_cons.
    apply elem_of_cons in Hin as [->|Hin]; [by rewrite Hj|by eapply IH].
Qed.

(** X6. A chunk without [source] metadata stops identity assignment with
    [TypeError]: [open] is given [None].  The chunks before it have their
    identifiers, the chunk and the ones after it are as they were. *)
Theorem missing_source_key_raises fs chunks1 chunk chunks2 keys :
  page_keys fs chunks1 = Return keys →
  source (metadata chunk) = None →
  calculate_chunk_ids fs (chunks1 ++ chunk :: chunks2)
  = (zip_with set_id chunks1 (spec_identifiers keys) ++ chunk :: chunks2,
     Some TypeError).
Proof.
  intros Hks Hsrc. rewrite spec_identifiers_loop_ids.
  apply for_chunk_raises; [done|]. by rewrite Hsrc.
Qed.

Lemma missing_source_key_raises_witness :
  calculate_chunk_ids sample_fs
    (report_batch ++ chunk_of "f" None (Some 3%Z) :: sample_batch)
  = (zip_with set_id report_batch
       (spec_identifiers
          [ "report.md:None:aaf4c61ddcc5e8a2dabede0f3b482cd9aea9434d";
            "report.md:None:aaf4c61ddcc5e8a2dabede0f3b482cd9aea9434d" ])
     ++ chunk_of "f" None (Some 3%Z) :: sample_batch,
     Some TypeError).
Proof.
  apply (missing_source_key_raises sample_fs report_batch
           (chunk_of "f" None (Some 3%Z)) sample_batch).
  - vm_compute. reflexivity.
  - reflexivity.
Defined.

Lemma page_keys_zip_with_set_id fs chunks ids :
  length ids = length chunks →
  page_keys fs (zip_with set_id chunks ids) = page_keys fs chunks.
Proof.
  revert ids. induction chunks as [|c chunks IH]; intros [|i ids]; try done.
  intros [= Hlen]. cbn [zip_with page_keys]. by rewrite IH.
Qed.

Lemma zip_with_set_id_twice chunks ids1 ids2 :
  length ids1 = length chunks →
  zip_with set_id (zip_with set_id chunks ids1) ids2
  = zip_with set_id chunks ids2.
Proof.
  revert ids1 ids2.
  induction chunks as [|c chunks IH]; intros [|i1 ids1] [|i2 ids2]; try done.
  intros [= Hlen]. cbn [zip_with]. by rewrite IH.
Qed.

(** X7. Identity assignment does not look at the identifiers the chunks
    carry: run on its own result, it returns and leaves it as it is. *)
Theorem calculate_chunk_ids_idempotent fs chunks chunks' :
  calculate_chunk_ids fs chunks = (chunks', None) →
  calculate_chunk_ids fs chunks' = (chunks', None).
Proof.
  intros (keys & Hks & ->)%calculate_chunk_ids_None.
  assert (length (loop_ids None 0 keys) = length chunks) as Hlen.
  { rewrite loop_ids_length. by eapply page_keys_length. }
  unfold calculate_chunk_ids.
  rewrite (for_chunk_returns _ _ _ _ keys).
  - by rewrite zip_with_set_id_twice.
  - by rewrite page_keys_zip_with_set_id.
Qed.

Lemma calculate_chunk_ids_idempotent_witness :
  calculate_chunk_ids sample_fs (calculate_chunk_ids sample_fs sample_batch).1
  = ((calculate_chunk_ids sample_fs sample_batch).1, None).
Proof.
  apply (calculate_chunk_ids_idempotent sample_fs sample_batch).
  vm_compute. reflexivity.
Defined.

Lemma loop_ids_take last index keys1 keys2 :
  take (length keys1) (loop_ids last index (keys1 ++ keys2))
  = loop_ids last index keys1.
Proof.
  unfold loop_ids. revert last index.
  induction keys1 as [|k keys1 IH]; intros last index; [done|].
  cbn [app counters zip_with length take]. by rewrite IH.
Qed.

Lemma take_zip_with_set_id n chunks ids :
  take n (zip_with set_id chunks ids)
  = zip_with set_id (take n chunks) (take n ids).
Proof.
  revert chunks ids. induction n as [|n IH]; intros [|c chunks] [|i ids];
    try done.
  cbn [zip_with take]. by rewrite IH.
Qed.

(** X8. The identifiers of a batch do not depend on what comes after: the
    chunks of a batch that is the front part of a longer one get, alone,
    the identifiers they get in the longer one. *)
Theorem calculate_chunk_ids_prefix fs chunks1 chunks2 chunks' :
  calculate_chunk_ids fs (chunks1 ++ chunks2) = (chunks', None) →
  calculate_chunk_ids fs chunks1 = (take (length chunks1) chunks', None).
Proof.
  intros (keys & Hks & ->)%calculate_chunk_ids_None.
  apply page_keys_app in Hks as (keys1 & keys2 & Hks1 & Hks2 & ->).
  unfold calculate_chunk_ids. rewrite (for_chunk_returns _ _ _ _ _ Hks1).
  rewrite take_zip_with_set_id, take_app_length.
  rewrite <- (page_keys_length _ _ _ Hks1), loop_ids_take. done.
Qed.

Lemma calculate_chunk_ids_prefix_witness :
  calculate_chunk_ids sample_fs report_batch
  = (take (length report_batch)
       (calculate_chunk_ids sample_fs (report_batch ++ sample_batch)).1,
     None).
Proof.
  apply (calculate_chunk_ids_prefix sample_fs report_batch sample_batch).
  vm_compute. reflexivity.
Defined.

Lemma counters_all_same k index keys :
  Forall (λ k', k' = k) keys →
  counters (Some k) index keys = seq (S index) (length keys).
Proof.
  revert index. induction keys as [|k' keys IH]; intros index; [done|].
  intros [-> Hall]%Forall_cons. cbn [counters length seq].
  rewrite decide_True by done. rewrite Nat.add_1_r. f_equal. by apply IH.
Qed.

(** X9. The chunks of a batch that all come from one page of one file
    have one page key, and they are numbered from 0, one by one, in the
    order of the batch: the chunk at position [i] gets [page_key:i]. *)
Theorem calculate_chunk_ids_one_page fs chunks chunks' unit :
  (∀ chunk, chunk ∈ chunks → unit_of chunk = unit) →
  calculate_chunk_ids fs chunks = (chunks', None) →
  ∀ i chunk chunk', chunks !! i = Some chunk → chunks' !! i = Some chunk' →
    ∃ k, page_key fs chunk = Return k
      ∧ (∀ c, c ∈ chunks → page_key fs c = Return k)
      ∧ id (metadata chunk') = Some (k +:+ ":" +:+ str i).
Proof.
  intros Hunit Hcall i chunk chunk' Hi Hi'.
  destruct (calculate_chunk_ids_None _ _ _ Hcall) as (keys & Hks & ->).
  destruct (page_keys_lookup _ _ _ _ _ Hks Hi) as (k & Hk & Hki).
  assert (∀ c, c ∈ chunks → page_key fs c = Return k) as Hsame.
  { intros c Hc. pose proof Hc as [j Hj]%list_elem_of_lookup_1.
    destruct (page_keys_lookup _ _ _ _ _ Hks Hj) as (kc & Hkc & _).
    rewrite Hkc. f_equal. apply (page_key_eq_iff fs c chunk kc k Hkc Hk).
    rewrite (Hunit c), (Hunit chunk); [done|by eapply list_elem_of_lookup_2|done]. }
  exists k. split; [done|]. split; [done|].
  assert (Forall (λ k', k' = k) keys) as Hall.
  { apply Forall_lookup. intros j kj Hj.
    destruct (lookup_lt_is_Some_2 chunks j) as [cj Hcj].
    { rewrite <- (page_keys_length _ _ _ Hks). by eapply lookup_lt_Some. }
    destruct (page_keys_lookup _ _ _ _ _ Hks Hcj) as (kj' & Hkj & Hj').
    rewrite Hj in Hj'. injection Hj' as <-.
    rewrite (Hsame cj) in Hkj by (by eapply list_elem_of_lookup_2).
    by injection Hkj. }
  assert (counters None 0 keys = seq 0 (length keys)) as Hcount.
  { destruct keys as [|k0 rest]; [done|].
    apply Forall_cons in Hall as [-> Hall].
    cbn [counters length seq]. rewrite decide_False by done. f_equal.
    by apply counters_all_same. }
  revert Hi'. unfold loop_ids. rewrite Hcount, !lookup_zip_with, Hi, Hki.
  simpl. rewrite lookup_seq_lt by (by eapply lookup_lt_Some). simpl.
  intros [= <-]. done.
Qed.

Lemma calculate_chunk_ids_one_page_witness :
  ∃ k, page_key sample_fs (chunk_of "e" (Some "report.md") None) = Return k
    ∧ (∀ c, c ∈ report_batch → page_key sample_fs c = Return k)
    ∧ id (metadata
            (set_id (chunk_of "e" (Some "report.md") None)
               "report.md:None:aaf4c61ddcc5e8a2dabede0f3b482cd9aea9434d:1"))
      = Some (k +:+ ":" +:+ str 1).
Proof.
  apply (calculate_chunk_ids_one_page sample_fs report_batch
           (calculate_chunk_ids sample_fs report_batch).1
           (Some "report.md", None)).
  - intros chunk Hin. apply list_elem_of_In in Hin. simpl in Hin.
    destruct Hin as [<-|[<-|[]]]; reflexivity.
  - vm_compute. reflexivity.
  - reflexivity.
  - vm_compute. reflexivity.
Defined.

Lemma hex_char_not_N x : hashlib.hex_char x ≠ "N"%char.
Proof.
  destruct x as [|p|p]; [done| |done].
  do 4 (destruct p as [p|p|]; try done).
Qed.

Lemma hexdigest_not_None m : hashlib.hexdigest m ≠ "None".
Proof.
  unfold hashlib.hexdigest.
  generalize (hashlib.blocks
    (length (hashlib.pad (hashlib.byte_val <$> m)) / 64)
    (hashlib.pad (hashlib.byte_val <$> m)) hashlib.init).
  intros st. cbv zeta. generalize (hashlib.h0 st). intros x.
  change (hashlib.hex 8 x) with
    (String (hashlib.hex_char (Z.land (Z.shiftr x (4 * Z.of_nat 7)) 0xF))
       (hashlib.hex 7 x)).
  rewrite app_cons_s.
  match goal with
  | |- String (hashlib.hex_char ?y) ?t ≠ _ => generalize t, y; intros y' tail
  end.
  intros Heq.
  apply (f_equal (λ s, match s with
                       | String c _ => c
                       | EmptyString => "N"%char
                       end)) in Heq.
  cbv beta iota in Heq. by apply hex_char_not_N in Heq.
Qed.

Lemma calculate_sha1_Return_cases fs filepath h :
  calculate_sha1 fs filepath = Return h →
  h = None ∨ ∃ m, h = Some (hashlib.hexdigest m).
Proof.
  unfold calculate_sha1. destruct (open fs filepath) as [f|e].
  - intros [= <-]. right. by eexists.
  - destruct e; intros [= <-]. by left.
Qed.

Lemma calculate_sha1_str_inj fs1 fs2 filepath1 filepath2 h1 h2 :
  calculate_sha1 fs1 filepath1 = Return h1 →
  calculate_sha1 fs2 filepath2 = Return h2 →
  str h1 = str h2 → h1 = h2.
Proof.
  intros [->|[m1 ->]]%calculate_sha1_Return_cases
         [->|[m2 ->]]%calculate_sha1_Return_cases Hstr.
  - reflexivity.
  - change ("None" = hashlib.hexdigest m2) in Hstr.
    symmetry in Hstr. by apply hexdigest_not_None in Hstr.
  - change (hashlib.hexdigest m1 = "None") in Hstr.
    by apply hexdigest_not_None in Hstr.
  - change (hashlib.hexdigest m1 = hashlib.hexdigest m2) in Hstr.
    rewrite Hstr. reflexivity.
Qed.

Lemma same_identifier fs1 fs2 chunk1 chunk2 k1 k2 (n1 n2 : nat) :
  page_key fs1 chunk1 = Return k1 →
  page_key fs2 chunk2 = Return k2 →
  k1 +:+ ":" +:+ str n1 = k2 +:+ ":" +:+ str n2 →
  unit_of chunk1 = unit_of chunk2
  ∧ calculate_sha1 fs1 (source (metadata chunk1))
    = calculate_sha1 fs2 (source (metadata chunk2))
  ∧ n1 = n2.
Proof.
  unfold page_key, unit_of.
  destruct chunk1 as [t1 [s1 p1 i1]], chunk2 as [t2 [s2 p2 i2]]; simpl.
  destruct (calculate_sha1 fs1 s1) as [h1|] eqn:H1; [|done].
  destruct (calculate_sha1 fs2 s2) as [h2|] eqn:H2; [|done].
  intros [= <-] [= <-] Hid.
  apply identifier_inj in Hid as [Hkey ->].
  destruct (calculate_sha1_Return _ _ _ H1) as [[path1 ->] Hc1].
  destruct (calculate_sha1_Return _ _ _ H2) as [[path2 ->] Hc2].
  apply page_id_inj in Hkey as (Hs & Hp & Hh);
    [|done || apply no_colon_str_page..].
  apply str_page_inj in Hp. change (path1 = path2) in Hs. subst.
  apply (calculate_sha1_str_inj _ _ _ _ _ _ H1 H2) in Hh. by subst.
Qed.



(** ** [add_to_chroma] *)

Lemma for_chunk_Some fs last index chunks e :
  (for_chunk fs last index chunks).2 = Some e →
  ∃ chunk, chunk ∈ chunks ∧ calculate_sha1 fs (source (metadata chunk)) = Raise e.
Proof.
  revert last index. induction chunks as [|chunk chunks IH]; intros last index.
  - done.
  - cbn [for_chunk].
    destruct (calculate_sha1 fs (source (metadata chunk))) as [h|e'] eqn:Hsha.
    + cbv zeta.
      match goal with |- context [for_chunk fs ?l ?n chunks] =>
        specialize (IH l n); destruct (for_chunk fs l n chunks) as [rest' r]
      end.
      simpl in *. intros Hr. destruct (IH Hr) as (c & Hin & Hc).
      exists c. split; [by right|done].
    + simpl. intros [= ->]. exists chunk. split; [by left|done].
Qed.

(** X11. [add_to_chroma] raises in two cases only: identity assignment
    raised, and this is the exception; or identity assignment returned and
    two of the chunks that are new to the store carry one identifier, and
    the exception is the store's [DuplicateIDError].  Reading
    [chunk.metadata["id"]] never fails, so it is never a [KeyError], and
    never a [FileNotFoundError] either. *)
Theorem add_to_chroma_raises_iff fs chroma chunks e :
  (add_to_chroma fs chroma chunks = Raise e
   ↔ (calculate_chunk_ids fs chunks).2 = Some e
     ∨ ((calculate_chunk_ids fs chunks).2 = None
        ∧ ¬ NoDup (identifiers
                     (unseen (dom chroma) (calculate_chunk_ids fs chunks).1))
        ∧ e = DuplicateIDError))
  ∧ (add_to_chroma fs chroma chunks = Raise e →
     (∀ key, e ≠ KeyError key) ∧ (∀ filename, e ≠ FileNotFoundError filename)).
Proof.
  assert (add_to_chroma fs chroma chunks = Raise e
   ↔ (calculate_chunk_ids fs chunks).2 = Some e
     ∨ ((calculate_chunk_ids fs chunks).2 = None
        ∧ ¬ NoDup (identifiers
                     (unseen (dom chroma) (calculate_chunk_ids fs chunks).1))
        ∧ e = DuplicateIDError)) as Hiff.
  { destruct (calculate_chunk_ids fs chunks) as [chunks_with_ids [e'|]] eqn:Hcall.
    - unfold add_to_chroma, add_to_chroma_call. rewrite Hcall. simpl. split.
      + intros [= ->]. by left.
      + by intros [[= ->]|[[=] _]].
    - destruct (calculate_chunk_ids_ids_of _ _ _ Hcall) as (ids & Hids & _).
      destruct (ids_of_filter (λ chunk, ¬ identifier_in (dom chroma) chunk)
                  _ _ Hids) as [new_ids Hnew].
      cbn [fst snd]. unfold unseen. rewrite (ids_of_identifiers _ _ Hnew).
      rewrite (NoDup_fmap Some).
      destruct (decide (NoDup new_ids)) as [Hnodup|Hdup].
      + rewrite (add_to_chroma_run _ _ _ _ _ _ Hcall Hids Hnew Hnodup).
        split; [done|]. by intros [[=]|(_ & ? & _)].
      + unfold add_to_chroma.
        rewrite (add_to_chroma_call_duplicate _ _ _ _ _ _ Hcall Hids Hnew Hdup).
        split.
        * intros [= <-]. by right.
        * by intros [[=]|(_ & _ & ->)]. }
  split; [exact Hiff|].
  intros [Hraise|(_ & _ & ->)]%Hiff; [|by split].
  unfold calculate_chunk_ids in Hraise.
  apply for_chunk_Some in Hraise as (chunk & _ & Hsha).
  apply calculate_sha1_Raise in Hsha as [Hopen Hne]. split; [|done].
  destruct (open_Raise _ _ _ Hopen)
    as [[_ ->]|(path & _ & [->|[->|[->|[->|[->| ->]]]]])]; done.
Qed.

Example add_to_chroma_interleaved :
  add_to_chroma sample_fs ∅ interleaved_batch = Raise DuplicateIDError
  ∧ identifiers (calculate_chunk_ids sample_fs interleaved_batch).1
    = [ Some "doc.pdf:1:a9993e364706816aba3e25717850c26c9cd0d89d:0";
        Some "doc.pdf:2:a9993e364706816aba3e25717850c26c9cd0d89d:0";
        Some "doc.pdf:1:a9993e364706816aba3e25717850c26c9cd0d89d:0" ].
Proof. split; vm_compute; reflexivity. Qed.

(** X12. A run that returns leaves nothing unwritten: the directory holds
    the collection as the run left it. *)
Theorem add_to_chroma_persisted fs chroma chunks db :
  add_to_chroma fs chroma chunks = Return db →
  persist_directory db = collection db.
Proof.
  intros Hrun.
  destruct (add_to_chroma_Return _ _ _ _ Hrun)
    as (chunks_with_ids & ids & new_ids & Hcall & Hids & Hnew & Hnodup).
  destruct (run_cases _ _ _ _ _ _ _ Hcall Hids Hnew Hrun)
    as (deleted & added & _ & _ & _ & _ & _ & _ & _ & Hdir).
  exact Hdir.
Qed.

Lemma add_to_chroma_persisted_witness :
  persist_directory sample_run = collection sample_run.
Proof.
  apply (add_to_chroma_persisted sample_fs sample_chroma sample_batch).
  vm_compute. reflexivity.
Defined.

Lemma ids_of_zip documents ids i d :
  ids_of documents = Return ids → (i, d) ∈ zip ids documents →
  d ∈ documents ∧ id (metadata d) = Some i.
Proof.
  revert ids. induction documents as [|d' documents IH]; intros ids.
  - intros [= <-] Hin. by apply elem_of_nil in Hin.
  - intros (j & ids' & Hj & Hids & ->)%ids_of_cons.
    cbn [zip zip_with]. intros [[= -> ->]|Hin]%elem_of_cons.
    + split; [by left|done].
    + destruct (IH _ Hids Hin) as [? ?]. split; [by right|done].
Qed.

Lemma lookup_foldl_insert_Some (m : gmap string Document) ids documents i d :
  foldl (λ m '(i, d), <[i := d]> m) m (zip ids documents) !! i = Some d →
  m !! i = Some d ∨ (i, d) ∈ zip ids documents.
Proof.
  generalize (zip ids documents). intros l. revert m.
  induction l as [|[j d'] l IH]; intros m; simpl; [by left|].
  intros [Hm|Hin]%IH.
  - destruct (decide (j = i)) as [->|Hne].
    + rewrite lookup_insert_eq in Hm. injection Hm as ->. right. by left.
    + rewrite lookup_insert_ne in Hm by done. by left.
  - right. by right.
Qed.

Lemma run_lookup fs chroma chunks chunks_with_ids db i d :
  calculate_chunk_ids fs chunks = (chunks_with_ids, None) →
  add_to_chroma fs chroma chunks = Return db →
  persist_directory db !! i = Some d →
  chroma !! i = Some d
  ∨ (d ∈ chunks_with_ids ∧ id (metadata d) = Some i).
Proof.
  intros Hcall Hrun Hd.
  destruct (calculate_chunk_ids_ids_of _ _ _ Hcall) as (ids & Hids & _).
  destruct (ids_of_filter (λ chunk, ¬ identifier_in (dom chroma) chunk)
              _ _ Hids) as [new_ids Hnew].
  destruct (run_cases _ _ _ _ _ _ _ Hcall Hids Hnew Hrun)
    as (deleted & added & _ & Hadded & _ & _ & _ & _ & Hcol & Hdir).
  rewrite Hdir, Hcol in Hd.
  apply lookup_foldl_insert_Some in Hd as [Hd|Hin].
  - left. rewrite lookup_foldr_delete in Hd. by case_decide.
  - right. destruct Hadded as [->| ->]; [by apply elem_of_nil in Hin|].
    destruct (ids_of_zip _ _ _ _ Hnew Hin) as [Hd Hid]. split; [|done].
    unfold unseen in Hd. by apply list_elem_of_filter in Hd as [_ ?].
Qed.

(** X13. If every document of the store sits under its own identifier
    before a run, the same holds after it. *)
Theorem add_to_chroma_keyed_by_id fs chroma chunks db :
  keyed_by_id chroma →
  add_to_chroma fs chroma chunks = Return db →
  keyed_by_id (persist_directory db).
Proof.
  intros Hkeyed Hrun i d Hd.
  destruct (add_to_chroma_Return _ _ _ _ Hrun)
    as (chunks_with_ids & ids & new_ids & Hcall & _ & _).
  destruct (run_lookup _ _ _ _ _ _ _ Hcall Hrun Hd) as [Hold|[_ Hid]]; [|done].
  by apply Hkeyed.
Qed.

Lemma sample_chroma_keyed_by_id : keyed_by_id sample_chroma.
Proof.
  intros i d Hd. unfold sample_chroma in Hd.
  apply lookup_singleton_Some in Hd as [<- <-]. reflexivity.
Qed.

Lemma add_to_chroma_keyed_by_id_witness :
  keyed_by_id (persist_directory sample_run).
Proof.
  apply (add_to_chroma_keyed_by_id sample_fs sample_chroma sample_batch).
  - exact sample_chroma_keyed_by_id.
  - vm_compute. reflexivity.
Defined.

(** X14. After a run, a document the store holds under an identifier it did
    not hold before is a chunk of the batch, as identity assignment left
    it, and the identifier is the chunk's own. *)
Theorem add_to_chroma_new_document fs chroma chunks db i d :
  add_to_chroma fs chroma chunks = Return db →
  i ∉ dom chroma →
  persist_directory db !! i = Some d →
  d ∈ (calculate_chunk_ids fs chunks).1 ∧ id (metadata d) = Some i.
Proof.
  intros Hrun Hnew Hd.
  destruct (add_to_chroma_Return _ _ _ _ Hrun)
    as (chunks_with_ids & ids & new_ids & Hcall & _ & _).
  rewrite Hcall. simpl.
  destruct (run_lookup _ _ _ _ _ _ _ Hcall Hrun Hd) as [Hold|?]; [|done].
  destruct Hnew. apply elem_of_dom. by eexists.
Qed.

Lemma add_to_chroma_new_document_witness :
  let i := "doc.pdf:2:a9993e364706816aba3e25717850c26c9cd0d89d:0" in
  let d := set_id (chunk_of "c" (Some "doc.pdf") (Some 2%Z)) i in
  d ∈ (calculate_chunk_ids sample_fs sample_batch).1 ∧ id (metadata d) = Some i.
Proof.
  intros i d.
  apply (add_to_chroma_new_document sample_fs sample_chroma sample_batch
           sample_run i d).
  - vm_compute. reflexivity.
  - apply (bool_decide_unpack _). vm_compute. reflexivity.
  - vm_compute. reflexivity.
Defined.

Lemma foldr_delete_dom (m : gmap string Document) :
  foldr base.delete m (elements (dom m)) = ∅.
Proof.
  apply map_eq. intros i. rewrite lookup_foldr_delete, lookup_empty.
  case_decide as Hi; [done|].
  rewrite elem_of_elements in Hi. by apply not_elem_of_dom.
Qed.

(** X15. An empty batch empties the store: every identifier the store held
    is deleted, in one [delete] followed by [persist]; on a store that was
    empty already nothing is called. *)
Theorem add_to_chroma_empty_batch fs chroma :
  ∃ db,
    add_to_chroma fs chroma [] = Return db
    ∧ collection db = ∅
    ∧ persist_directory db = ∅
    ∧ calls db
      = if decide (chroma = ∅) then []
        else [Delete (elements (dom chroma)); Persist].
Proof.
  assert (calculate_chunk_ids fs [] = ([], None)) as Hcall by done.
  assert (ids_of [] = Return []) as Hids by done.
  assert (ids_of (unseen (dom chroma) []) = Return []) as Hnew by done.
  rewrite (add_to_chroma_run _ _ _ _ _ _ Hcall Hids Hnew (NoDup_nil_2 (A:=string))).
  eexists. split; [done|].
  rewrite (decide_False (P:=length _ ≠ 0)) by (intros Hn; by apply Hn).
  unfold after_delete. rewrite list_to_set_nil, difference_empty_L.
  destruct (decide (chroma = ∅)) as [->|Hne].
  - rewrite dom_empty_L.
    rewrite (decide_False (P:=_ ≠ ∅)) by (intros Hn; by apply Hn). done.
  - rewrite (decide_True (P:=_ ≠ ∅)) by (by intros ?%dom_empty_inv_L).
    cbn [Chroma_persist Chroma_delete Chroma_init collection
           persist_directory calls app].
    by rewrite foldr_delete_dom.
Qed.

Lemma unseen_empty chunks : unseen ∅ chunks = chunks.
Proof.
  unfold unseen. induction chunks as [|c chunks IH]; [done|].
  rewrite filter_cons, decide_True, IH; [done|].
  intros (i & _ & Hi). by apply not_elem_of_empty in Hi.
Qed.

(** X16. On a store that holds nothing, a run deletes nothing and hands
    the whole batch to the store in one [add_documents], every chunk under
    the identifier it carries.  When these identifiers are all different
    the store takes the batch, [persist] follows, and the directory then
    holds exactly these identifiers; otherwise the store rejects the batch
    with [DuplicateIDError] and nothing is written.  With an empty batch
    nothing is called. *)
Theorem add_to_chroma_fresh_store fs chunks chunks_with_ids :
  calculate_chunk_ids fs chunks = (chunks_with_ids, None) →
  ∃ ids db raised,
    identifiers chunks_with_ids = Some <$> ids
    ∧ add_to_chroma_call fs ∅ chunks = (db, raised)
    ∧ calls db
      = (if decide (chunks_with_ids = []) then []
         else AddDocuments chunks_with_ids ids
              :: (if decide (NoDup ids) then [Persist] else []))
    ∧ raised = (if decide (NoDup ids) then None else Some DuplicateIDError)
    ∧ dom (persist_directory db)
      = (if decide (NoDup ids) then list_to_set ids else ∅).
Proof.
  intros Hcall.
  destruct (calculate_chunk_ids_ids_of _ _ _ Hcall) as (ids & Hids & Hidf).
  assert (ids_of (unseen (dom (∅ : gmap string Document)) chunks_with_ids)
          = Return ids) as Hnew.
  { by rewrite dom_empty_L, unseen_empty. }
  assert (after_delete ∅ ids = Chroma_init ∅) as Hdel.
  { unfold after_delete. rewrite dom_empty_L, difference_disjoint_L
      by apply disjoint_empty_l.
    by rewrite (decide_False (P:=_ ≠ ∅)) by (intros Hn; by apply Hn). }
  pose proof (add_to_chroma_call_run _ _ _ _ _ _ Hcall Hids Hnew) as Hc.
  rewrite Hdel, dom_empty_L, unseen_empty in Hc.
  assert (chunks_with_ids = [] → NoDup ids) as Hnil.
  { intros ->. injection Hids as <-. constructor. }
  destruct (add_to_chroma_call fs ∅ chunks) as [db raised] eqn:Hres.
  exists ids, db, raised. split; [done|]. split; [done|].
  destruct (decide (NoDup ids)) as [Hnodup|Hdup].
  - assert (add_to_chroma fs ∅ chunks = Return db) as Hrun.
    { unfold add_to_chroma. rewrite Hres.
      by destruct (decide (length chunks_with_ids ≠ 0)); injection Hc as -> ->. }
    pose proof (run_dom _ _ _ _ _ _ _ Hcall Hids Hnew Hrun) as Hdom.
    split_and!; [| |done].
    + destruct (decide (chunks_with_ids = [])) as [->|Hne].
      * rewrite (decide_False (P:=length _ ≠ 0)) in Hc
          by (intros Hn; by apply Hn).
        by injection Hc as -> ->.
      * rewrite (decide_True (P:=length _ ≠ 0)) in Hc
          by (by intros ?%length_zero_iff_nil).
        by injection Hc as -> ->.
    + by destruct (decide (length chunks_with_ids ≠ 0)); injection Hc as -> ->.
  - rewrite (decide_False (P:=chunks_with_ids = [])) by auto.
    rewrite (decide_True (P:=length _ ≠ 0)) in Hc
      by (intros ?%length_zero_iff_nil; auto).
    injection Hc as -> ->. split_and!; [done..|].
    cbn [persist_directory Chroma_rejected Chroma_init]. apply dom_empty_L.
Qed.

Lemma add_to_chroma_fresh_store_witness :
  ∃ ids db raised,
    identifiers (calculate_chunk_ids sample_fs interleaved_batch).1 = Some <$> ids
    ∧ add_to_chroma_call sample_fs ∅ interleaved_batch = (db, raised)
    ∧ calls db
      = (if decide ((calculate_chunk_ids sample_fs interleaved_batch).1 = [])
         then []
         else AddDocuments (calculate_chunk_ids sample_fs interleaved_batch).1 ids
              :: (if decide (NoDup ids) then [Persist] else []))
    ∧ raised = (if decide (NoDup ids) then None else Some DuplicateIDError)
    ∧ dom (persist_directory db)
      = (if decide (NoDup ids) then list_to_set ids else ∅).
Proof.
  apply (add_to_chroma_fresh_store sample_fs interleaved_batch).
  vm_compute. reflexivity.
Defined.

Example add_to_chroma_fresh_store_samples :
  (∃ db, add_to_chroma_call sample_fs ∅ sample_batch = (db, None)
     ∧ calls db
       = [AddDocuments (calculate_chunk_ids sample_fs sample_batch).1
            [ "doc.pdf:1:a9993e364706816aba3e25717850c26c9cd0d89d:0";
              "doc.pdf:1:a9993e364706816aba3e25717850c26c9cd0d89d:1";
              "doc.pdf:2:a9993e364706816aba3e25717850c26c9cd0d89d:0";
              "report.md:None:aaf4c61ddcc5e8a2dabede0f3b482cd9aea9434d:0";
              "report.md:None:aaf4c61ddcc5e8a2dabede0f3b482cd9aea9434d:1" ];
          Persist])
  ∧ (∃ db, add_to_chroma_call sample_fs ∅ interleaved_batch
           = (db, Some DuplicateIDError)
     ∧ calls db
       = [AddDocuments (calculate_chunk_ids sample_fs interleaved_batch).1
            [ "doc.pdf:1:a9993e364706816aba3e25717850c26c9cd0d89d:0";
              "doc.pdf:2:a9993e364706816aba3e25717850c26c9cd0d89d:0";
              "doc.pdf:1:a9993e364706816aba3e25717850c26c9cd0d89d:0" ]]
     ∧ persist_directory db = ∅).
Proof. split; eexists; split_and!; vm_compute; reflexivity. Qed.

(** ** [main] *)
Section main.
Context (load : string → string → loader_cls → list Document).
Context (split : list Document → list Document).

Local Abbreviation batch := (split_documents split (load_documents load)).

Lemma main_Return fs chroma_dir m :
  main load split false fs chroma_dir = (m, None) →
  ∃ db, add_to_chroma fs (default ∅ chroma_dir) batch = Return db
    ∧ m = persist_directory db.
Proof.
  unfold main, add_to_chroma.
  destruct (add_to_chroma_call fs (default ∅ chroma_dir) batch) as [db [e|]];
    intros [= <-]. by exists db.
Qed.

Lemma clear_database_None chroma_dir : clear_database chroma_dir = None.
Proof.
  unfold clear_database. case_decide as H; [done|].
  destruct chroma_dir; [|done]. destruct H. by eexists.
Qed.

(** X17. With [--reset] what the store held does not matter: [main] ends as
    it would without the flag on a store directory that is not there. *)
Theorem main_reset_as_fresh fs chroma_dir :
  main load split true fs chroma_dir = main load split false fs None.
Proof. unfold main. by rewrite clear_database_None. Qed.

(** X18. [main] catches nothing, and it ends with an exception in two
    cases only.  Identity assignment of the batch raised: this is the
    exception, and the store is as it was when [add_to_chroma] was called
    -- emptied by [--reset], untouched without it.  Or identity assignment
    returned and two chunks that are new to the store carry one
    identifier: the exception is the store's [DuplicateIDError], and of
    what the store held the documents whose identifier is one of the
    batch's are left -- the others were deleted and this was written,
    nothing was added. *)
Theorem main_raises_iff reset fs chroma_dir m e :
  main load split reset fs chroma_dir = (m, Some e)
  ↔ ((calculate_chunk_ids fs batch).2 = Some e
     ∧ m = (if reset then ∅ else default ∅ chroma_dir))
    ∨ ((calculate_chunk_ids fs batch).2 = None
       ∧ ¬ NoDup (identifiers
                    (unseen (dom (if reset then ∅ else default ∅ chroma_dir))
                       (calculate_chunk_ids fs batch).1))
       ∧ e = DuplicateIDError
       ∧ m = filter (λ kv, Some kv.1 ∈ identifiers (calculate_chunk_ids fs batch).1)
               (if reset then ∅ else default ∅ chroma_dir)).
Proof.
  assert ((if reset then clear_database chroma_dir else chroma_dir)
          = if reset then None else chroma_dir) as Hdir.
  { destruct reset; [apply clear_database_None|done]. }
  unfold main. rewrite Hdir. clear Hdir.
  set (dir := if reset then None else chroma_dir).
  assert (default ∅ dir = if reset then ∅ else default ∅ chroma_dir) as Hm.
  { subst dir. by destruct reset. }
  rewrite <- Hm. clear Hm. generalize (default ∅ dir). intros chroma.
  destruct (calculate_chunk_ids fs batch) as [chunks_with_ids [e'|]] eqn:Hcall.
  - unfold add_to_chroma_call. rewrite Hcall. simpl. split.
    + intros [= <- <-]. by left.
    + by intros [[[= ->] ->]|[[=] _]].
  - destruct (calculate_chunk_ids_ids_of _ _ _ Hcall) as (ids & Hids & _).
    destruct (ids_of_filter (λ chunk, ¬ identifier_in (dom chroma) chunk)
                _ _ Hids) as [new_ids Hnew].
    cbn [fst snd]. unfold unseen. rewrite (ids_of_identifiers _ _ Hnew).
    rewrite (NoDup_fmap Some).
    rewrite <- (after_delete_persist_directory chroma _ _ Hids).
    destruct (decide (NoDup new_ids)) as [Hnodup|Hdup].
    + pose proof (add_to_chroma_run _ _ _ _ _ _ Hcall Hids Hnew Hnodup) as Hrun.
      unfold add_to_chroma in Hrun.
      destruct (add_to_chroma_call fs chroma batch) as [db [e'|]]; [done|].
      split; [done|]. by intros [[[=] _]|(_ & ? & _)].
    + rewrite (add_to_chroma_call_duplicate _ _ _ _ _ _ Hcall Hids Hnew Hdup).
      cbn [persist_directory Chroma_rejected]. split.
      * intros [= <- <-]. by right.
      * by intros [[[=] _]|(_ & _ & -> & ->)].
Qed.

(** X19. Running the script again after a run that ended well, without
    [--reset] and with the files and the loaded batch unchanged, ends well
    too and leaves the store exactly as the first run left it. *)
Theorem main_twice reset fs chroma_dir m :
  main load split reset fs chroma_dir = (m, None) →
  main load split false fs (Some m) = (m, None).
Proof.
  intros Hfirst.
  assert (∃ dir, main load split false fs dir = (m, None)) as [dir Hmain].
  { destruct reset; [|by eauto].
    unfold main in Hfirst. rewrite clear_database_None in Hfirst. by exists None. }
  apply main_Return in Hmain as (db & Hrun & ->).
  destruct (add_to_chroma_Return _ _ _ _ Hrun)
    as (chunks_with_ids & ids & new_ids & Hcall & Hids & Hnew & Hnodup).
  pose proof (run_dom _ _ _ _ _ _ _ Hcall Hids Hnew Hrun) as Hdom.
  unfold main.
  change (default ∅ (Some (persist_directory db))) with (persist_directory db).
  rewrite (add_to_chroma_call_run _ _ _ _ _ [] Hcall Hids)
    by (by rewrite Hdom, (unseen_nil _ _ Hids)).
  unfold after_delete.
  rewrite Hdom, difference_diag_L, (unseen_nil _ _ Hids).
  rewrite (decide_False (P:=_ ≠ ∅)) by (intros Hn; by apply Hn).
  rewrite (decide_False (P:=length _ ≠ 0)) by (intros Hn; by apply Hn).
  done.
Qed.

End main.

Example main_reset_then_failure :
  main sample_loader whole_documents true
    (<["doc.pdf" := Directory]> sample_fs) (Some sample_chroma)
  = (∅, Some (IsADirectoryError "doc.pdf"))
  ∧ main sample_loader whole_documents false
      (<["doc.pdf" := Directory]> sample_fs) (Some sample_chroma)
    = (sample_chroma, Some (IsADirectoryError "doc.pdf")).
Proof. split; vm_compute; reflexivity. Qed.

(** The stale document is gone, and nothing took its place. *)
Example main_rejected_addition :
  main interleaved_loader whole_documents false sample_fs (Some sample_chroma)
  = (∅, Some DuplicateIDError).
Proof. vm_compute. reflexivity. Qed.

Lemma main_twice_witness :
  main sample_loader whole_documents false sample_fs
    (Some (persist_directory sample_run))
  = (persist_directory sample_run, None).
Proof.
  apply (main_twice sample_loader whole_documents false sample_fs
           (Some sample_chroma)).
  vm_compute. reflexivity.
Defined.

(** ** A file that changed between two runs *)

(** A chunk of a batch that was assigned identifiers is a chunk of the
    input with the identifier made of its page key and a running index. *)
Lemma calculate_chunk_ids_elem_of fs chunks chunks_with_ids d :
  calculate_chunk_ids fs chunks = (chunks_with_ids, None) →
  d ∈ chunks_with_ids →
  ∃ chunk k (n : nat),
    page_key fs chunk = Return k
    ∧ d = set_id chunk (k +:+ ":" +:+ str n).
Proof.
  intros Hcall [j Hj]%list_elem_of_lookup_1.
  destruct (lookup_lt_is_Some_2 chunks j) as [chunk Hchunk].
  { destruct (calculate_chunk_ids_None _ _ _ Hcall) as (keys & Hks & ->).
    apply lookup_lt_Some in Hj. rewrite length_zip_with in Hj. lia. }
  destruct (calculate_chunk_ids_lookup _ _ _ _ _ Hcall Hchunk)
    as (k & n & Hk & Hj').
  rewrite Hj in Hj'. injection Hj' as ->. by exists chunk, k, n.
Qed.

(** X20. When the fingerprint of a file is no longer what it was at the
    previous run, the next run removes from the store every identifier the
    previous run gave to a chunk of that file. *)
Theorem changed_file_ids_removed fs1 fs2 chroma chunks1 chunks2 db1 db2 d i :
  add_to_chroma fs1 chroma chunks1 = Return db1 →
  add_to_chroma fs2 (persist_directory db1) chunks2 = Return db2 →
  d ∈ (calculate_chunk_ids fs1 chunks1).1 →
  id (metadata d) = Some i →
  calculate_sha1 fs2 (source (metadata d))
  ≠ calculate_sha1 fs1 (source (metadata d)) →
  persist_directory db2 !! i = None.
Proof.
  intros Hrun1 Hrun2 Hd Hi Hchanged.
  destruct (add_to_chroma_Return _ _ _ _ Hrun1)
    as (cw1 & ids1 & new1 & Hcall1 & _ & _).
  destruct (add_to_chroma_Return _ _ _ _ Hrun2)
    as (cw2 & ids2 & new2 & Hcall2 & Hids2 & Hnew2 & _).
  rewrite Hcall1 in Hd. simpl in Hd.
  apply not_elem_of_dom.
  rewrite (run_dom _ _ _ _ _ _ _ Hcall2 Hids2 Hnew2 Hrun2).
  rewrite elem_of_list_to_set, (ids_of_elem_of _ _ _ Hids2).
  intros (d2 & Hd2 & Hi2).
  destruct (calculate_chunk_ids_elem_of _ _ _ _ Hcall1 Hd)
    as (c1 & k1 & n1 & Hk1 & ->).
  destruct (calculate_chunk_ids_elem_of _ _ _ _ Hcall2 Hd2)
    as (c2 & k2 & n2 & Hk2 & ->).
  simpl in Hi, Hi2, Hchanged. rewrite <- Hi2 in Hi. injection Hi as Hid.
  destruct (same_identifier _ _ _ _ _ _ _ _ Hk1 Hk2 Hid) as (Hunit & Hsha & _).
  apply Hchanged. injection Hunit as Hsrc _. by rewrite Hsha, Hsrc.
Qed.

Lemma changed_file_ids_removed_witness :
  persist_directory changed_run
    !! "report.md:None:aaf4c61ddcc5e8a2dabede0f3b482cd9aea9434d:0" = None.
Proof.
  apply (changed_file_ids_removed sample_fs changed_fs sample_chroma
           sample_batch sample_batch sample_run changed_run
           (set_id (chunk_of "d" (Some "report.md") None)
              "report.md:None:aaf4c61ddcc5e8a2dabede0f3b482cd9aea9434d:0")).
  - vm_compute. reflexivity.
  - vm_compute. reflexivity.
  - apply (bool_decide_unpack _). vm_compute. reflexivity.
  - reflexivity.
  - vm_compute. intros [=].
Defined.
